(** * video-analysis-mcp: request dispatch, validation, analysis and cleanup

    A shallow embedding of the server variants of the repository:
    - [Remote]  : remote-server.js (REST, MCP-over-HTTP and WebSocket, with
                  the [authenticate] middleware);
    - [SSE]     : mcp-server.js (MCP over Server-Sent-Events, no authenticator);
    - [Legacy]  : the plain Express server (POST /analyze_video_url).

    JavaScript exceptions are modelled by an error monad over an explicit
    world (file system, provider call log, WebSocket outbox); an [await]
    that never settles is a third outcome, after which nothing of the
    handler runs.  The network,
    the AI provider, token verification and uuid generation are oracles
    collected in [Env].  Logging is left out: the log file is an operational
    artifact that no property below reads. *)

From Stdlib Require Import ZArith NArith List Ascii String Lia Bool.
From stdpp Require Import base option gmap strings list fin_maps pretty.

Open Scope string_scope.
Open Scope N_scope.

(** ** JavaScript strings and Node's [path.extname] *)

(** A string is the sequence of its UTF-8 bytes: an ASCII character is one
    byte, and no byte of a longer character is an ASCII byte. *)
Definition lower_ascii (c : ascii) : ascii :=
  let n := N_of_ascii c in
  if (65 <=? n) && (n <=? 90) then ascii_of_N (n + 32) else c.

(** U+212A KELVIN SIGN, the one character outside ASCII whose lower case
    is an ASCII letter ([k]); in UTF-8 it is the bytes E2 84 AA. *)
Definition KELVIN_SIGN : string :=
  String "226"%char (String "132"%char (String "170"%char EmptyString)).

(** [s.toLowerCase()]: the letters A-Z and the Kelvin sign are lower-cased.
    Every other character outside ASCII is left as it is; its lower case is
    outside ASCII too, so this changes no comparison with the ASCII
    extensions of the tables below. *)
Fixpoint toLowerCase (s : string) : string :=
  match s with
  | EmptyString => EmptyString
  | String c s' =>
      match s' with
      | String c1 (String c2 s'') =>
          if bool_decide (c = "226"%char) && bool_decide (c1 = "132"%char)
             && bool_decide (c2 = "170"%char)
          then String "k"%char (toLowerCase s'')
          else String (lower_ascii c) (toLowerCase s')
      | _ => String (lower_ascii c) (toLowerCase s')
      end
  end.

(** The scan state of [path.extname] (posix): the loop runs from the last
    character to the first and records where the extension starts and ends. *)
Record ext_scan := ExtScan {
  startDot : Z;
  startPart : Z;
  end_ : Z;
  matchedSlash : bool;
  preDotState : Z;
  stopped : bool
}.

Definition ext_init : ext_scan :=
  {| startDot := -1; startPart := 0; end_ := -1; matchedSlash := true;
     preDotState := 0; stopped := false |}.

Definition ext_step (st : ext_scan) (ic : Z * ascii) : ext_scan :=
  let '(i, code) := ic in
  if stopped st then st
  else if bool_decide (code = "/"%char) then
    if negb (matchedSlash st)
    then {| startDot := startDot st; startPart := (i + 1)%Z; end_ := end_ st;
            matchedSlash := matchedSlash st; preDotState := preDotState st;
            stopped := true |}
    else st
  else
    let st1 :=
      if (end_ st =? -1)%Z
      then {| startDot := startDot st; startPart := startPart st;
              end_ := (i + 1)%Z; matchedSlash := false;
              preDotState := preDotState st; stopped := false |}
      else st in
    if bool_decide (code = "."%char) then
      if (startDot st1 =? -1)%Z
      then {| startDot := i; startPart := startPart st1; end_ := end_ st1;
              matchedSlash := matchedSlash st1; preDotState := preDotState st1;
              stopped := false |}
      else if negb (preDotState st1 =? 1)%Z
      then {| startDot := startDot st1; startPart := startPart st1;
              end_ := end_ st1; matchedSlash := matchedSlash st1;
              preDotState := 1; stopped := false |}
      else st1
    else if negb (startDot st1 =? -1)%Z
    then {| startDot := startDot st1; startPart := startPart st1;
            end_ := end_ st1; matchedSlash := matchedSlash st1;
            preDotState := -1; stopped := false |}
    else st1.

Fixpoint indexed_from (i : Z) (cs : list ascii) : list (Z * ascii) :=
  match cs with
  | [] => []
  | c :: cs' => (i, c) :: indexed_from (i + 1)%Z cs'
  end.

Definition ext_scan_path (p : string) : ext_scan :=
  fold_left ext_step (rev (indexed_from 0%Z (list_ascii_of_string p))) ext_init.

(** [path.extname(p)]: the text from the last dot of the last path component
    to its end; empty when there is no dot, when the component starts with
    its only dot, or when the component is [..]. *)
Definition extname (p : string) : string :=
  let st := ext_scan_path p in
  if (startDot st =? -1)%Z
     || (end_ st =? -1)%Z
     || (preDotState st =? 0)%Z
     || ((preDotState st =? 1)%Z
         && (startDot st =? end_ st - 1)%Z
         && (startDot st =? startPart st + 1)%Z)
  then ""
  else substring (Z.to_nat (startDot st)) (Z.to_nat (end_ st - startDot st)) p.

(** JavaScript truthiness of a value that is a string or [undefined]/[null]:
    only a non-empty string is truthy. *)
Definition truthy (v : option string) : bool :=
  match v with
  | Some s => negb (bool_decide (s = ""))
  | None => false
  end.

(** A JSON value that the server only compares with string literals,
    prints, or echoes: a string, a missing key, or anything else (kept by
    its printed form). *)
Inductive JsVal :=
| JUndefined
| JString (s : string)
| JOther (printed : string).

(** [v === 'lit'] *)
Definition is_str (v : JsVal) (lit : string) : bool :=
  match v with
  | JString s => bool_decide (s = lit)
  | _ => false
  end.

(** [`${v}`] *)
Definition print (v : JsVal) : string :=
  match v with
  | JUndefined => "undefined"
  | JString s => s
  | JOther printed => printed
  end.

(** ** Data model *)

(** An on-disk file; only its size is observed by the validator. *)
Record file := File { size : N }.

Record inlineData := InlineData { data : file; mimeType : string }.

(** One call of [model.generateContent([prompt, videoPart])]. *)
Record call := Call { c_prompt : string; c_part : inlineData }.

Record entry := Entry { prompt : string; analysis : string }.

(** The object returned by [analyzeVideo]: a key that the source leaves out
    of the object literal is [None]. *)
Record AnalysisResult := Result {
  success : bool;
  results : option (list entry);
  error : option string
}.

(** Thrown values.  The source throws plain [Error] objects told apart by
    their message; the constructors keep the throw site and [message] gives
    the text the source builds. *)
Inductive Error :=
| FileNotFound (p : string)
| UnsupportedFormat
| FileTooLarge
| MissingApiKey
| DownloadFailed (statusText : string)
| ProviderError (msg : string)
| RequiredArgument (what : string)
| UnknownTool (tool : string)
| McpError (code : Z) (msg : string)
| OtherError (msg : string).

(** Supported video formats, in the order of the object literal. *)
Definition SUPPORTED_FORMATS : list (string * string) :=
  [ (".mp4", "video/mp4");
    (".webm", "video/webm");
    (".mov", "video/quicktime");
    (".avi", "video/x-msvideo");
    (".mkv", "video/x-matroska") ].

(** [SUPPORTED_FORMATS[ext]] *)
Fixpoint assoc (k : string) (l : list (string * string)) : option string :=
  match l with
  | [] => None
  | (k', v) :: l' => if bool_decide (k = k') then Some v else assoc k l'
  end.

Fixpoint join (sep : string) (l : list string) : string :=
  match l with
  | [] => ""
  | [x] => x
  | x :: l' => x ++ sep ++ join sep l'
  end.

Definition MAX_FILE_SIZE : N := 100 * 1024 * 1024.

Definition message (e : Error) : string :=
  match e with
  | FileNotFound p => "File not found: " ++ p
  | UnsupportedFormat =>
      "Unsupported file format. Supported formats: "
      ++ join ", " (map fst SUPPORTED_FORMATS)
  | FileTooLarge => "File too large. Maximum size: 100MB"
  | MissingApiKey => "Google API key is required for video analysis"
  | DownloadFailed statusText => "Failed to download file: " ++ statusText
  | ProviderError msg => msg
  | RequiredArgument what => what ++ " is required"
  | UnknownTool tool => "Unknown tool: " ++ tool
  | McpError code msg => "MCP error " ++ pretty code ++ ": " ++ msg
  | OtherError msg => msg
  end.

(** A tool descriptor of the discovery listing. *)
Record Tool := MkTool {
  name : string;
  description : string;
  properties : list (string * string);
  required : list string
}.

(** Messages the WebSocket server sends. *)
Inductive WsMessage :=
| WsConnected (clientId : string)
| WsAuthRequired
| WsTools (tools : list Tool)
| WsToolResult (id : JsVal) (content : AnalysisResult)
| WsError (id : JsVal) (err : string)
| WsPong (timestamp : Z).

(** ** The world and the environment *)

Record World := MkWorld {
  fs : gmap string file;          (* the files on disk *)
  calls : list call;              (* provider calls issued so far, oldest first *)
  outbox : list WsMessage;        (* what [ws.send] has sent, oldest first *)
  uuids : nat;                    (* how many uuids have been drawn *)
  clock : Z                       (* [Date.now()] *)
}.

(** What the provider does with one call, given the calls before it. *)
Inductive gen_reply := Text (t : string) | Fails (msg : string).

(** The response body of a download: it arrives whole, or the stream breaks
    after part of it was written, or it stops arriving without ending or
    failing (a body cut short under its Content-Length, a host that goes
    silent): [streamPipeline] then never settles. *)
Inductive body_stream :=
| BodyComplete (f : file)
| BodyBroken (written : file) (msg : string)
| BodyStalls (written : file).

(** What [fetch(url)] does: it rejects, it resolves with a response, or no
    response ever arrives and it never settles (no timeout is set). *)
Inductive fetch_result :=
| FetchRejects (msg : string)
| FetchResponse (ok : bool) (statusText : string) (body : body_stream)
| FetchPending.

Record Env := MkEnv {
  fetch : string -> fetch_result;
  generateContent_oracle : list call -> call -> gen_reply;
  jwt_verify : string -> bool;    (* [jwt.verify(token, JWT_SECRET)] does not throw *)
  uuidv4 : nat -> string
}.

(** Process configuration, read once at start-up. *)
Record Config := MkConfig {
  ENABLE_AUTH : bool;
  API_KEY : option string;
  GOOGLE_API_KEY : option string
}.

(** [process.env.API_KEY || null], [process.env.ENABLE_AUTH !== 'false']. *)
Definition load_config (getenv : string -> option string) : Config :=
  {| ENABLE_AUTH := negb (bool_decide (getenv "ENABLE_AUTH" = Some "false"));
     API_KEY := if truthy (getenv "API_KEY") then getenv "API_KEY" else None;
     GOOGLE_API_KEY := getenv "GOOGLE_API_KEY" |}.

(** ** Exceptions over the world *)

(** How an awaited computation ends: it returns, it throws, or it never
    settles.  In the last case the async function that awaits it stops
    there for good: nothing after the [await] runs, no [catch] included. *)
Inductive outcome (A : Type) : Type :=
| Return (a : A)
| Throw (e : Error)
| Pending.
Arguments Return {A} a.
Arguments Throw {A} e.
Arguments Pending {A}.

Definition M (A : Type) : Type := World -> outcome A * World.

Definition ret {A} (a : A) : M A := fun w => (Return a, w).
Definition throw {A} (e : Error) : M A := fun w => (Throw e, w).
Definition pending {A} : M A := fun w => (Pending, w).
Definition bind {A B} (m : M A) (k : A -> M B) : M B :=
  fun w => match m w with
           | (Return a, w') => k a w'
           | (Throw e, w') => (Throw e, w')
           | (Pending, w') => (Pending, w')
           end.
(** [try { m } catch (error) { h error }] *)
Definition try_catch {A} (m : M A) (h : Error -> M A) : M A :=
  fun w => match m w with
           | (Return a, w') => (Return a, w')
           | (Throw e, w') => h e w'
           | (Pending, w') => (Pending, w')
           end.

Notation "'do' x <- m ; k" := (bind m (fun x => k))
  (at level 10, x name, m at level 100, k at level 200).
Notation "'exec' m ; k" := (bind m (fun _ => k))
  (at level 10, m at level 100, k at level 200).

(** ** File system primitives *)

Definition set_fs (f : gmap string file -> gmap string file) (w : World) : World :=
  {| fs := f (fs w); calls := calls w; outbox := outbox w; uuids := uuids w;
     clock := clock w |}.

Definition log_calls (cs : list call) (w : World) : World :=
  {| fs := fs w; calls := calls w ++ cs; outbox := outbox w; uuids := uuids w;
     clock := clock w |}.

Definition push_outbox (m : WsMessage) (w : World) : World :=
  {| fs := fs w; calls := calls w; outbox := outbox w ++ [m]; uuids := uuids w;
     clock := clock w |}.

Definition existsSync (p : string) : M bool :=
  fun w => (Return (bool_decide (is_Some (fs w !! p))), w).

(** [fs.unlinkSync(p)] throws ENOENT when the file is not there. *)
Definition unlinkSync (p : string) : M unit :=
  fun w => match fs w !! p with
           | Some _ => (Return tt, set_fs (delete p) w)
           | None => (Throw (OtherError ("ENOENT: no such file or directory, unlink " ++ p)), w)
           end.

Definition statSync (p : string) : M file :=
  fun w => match fs w !! p with
           | Some f => (Return f, w)
           | None => (Throw (OtherError ("ENOENT: no such file or directory, stat " ++ p)), w)
           end.

Definition readFileSync (p : string) : M file :=
  fun w => match fs w !! p with
           | Some f => (Return f, w)
           | None => (Throw (OtherError ("ENOENT: no such file or directory, open " ++ p)), w)
           end.

(** [fs.createWriteStream(p)] fed by a stream: the file is created (or
    truncated) and holds what was written. *)
Definition writeFile (p : string) (f : file) : M unit :=
  fun w => (Return tt, set_fs (insert p f) w).

(** [`${uuidv4()}`]: draws the next identifier. *)
Definition fresh_uuid (env : Env) : M string :=
  fun w => (Return (uuidv4 env (uuids w)),
            {| fs := fs w; calls := calls w; outbox := outbox w;
               uuids := S (uuids w); clock := clock w |}).

Definition TEMP_DIR : string := "/tmp/video-analysis-uploads".

(** [path.join(TEMP_DIR, `${uuidv4()}.mp4`)] *)
Definition tempFile (env : Env) : M string :=
  do u <- fresh_uuid env; ret (TEMP_DIR ++ "/" ++ u ++ ".mp4").

(** ** Shared helpers of the three servers *)

Section Helpers.
Variable env : Env.

Definition downloadFile (url outputPath : string) : M string :=
  match fetch env url with
  | FetchRejects msg => throw (OtherError msg)
  | FetchResponse ok statusText body =>
      if negb ok then throw (DownloadFailed statusText)
      else match body with
           | BodyComplete f => exec writeFile outputPath f; ret outputPath
           | BodyBroken written msg =>
               exec writeFile outputPath written; throw (OtherError msg)
           | BodyStalls written =>
               exec writeFile outputPath written; pending
           end
  | FetchPending => pending
  end.

Definition fileToGenerativePart (filePath mime : string) : M inlineData :=
  do fileBuffer <- readFileSync filePath;
  ret {| data := fileBuffer; mimeType := mime |}.

(** [await model.generateContent([prompt, videoPart])] followed by
    [result.response.text()]: the call is issued, then it yields the text
    or throws. *)
Definition generateContent (p : string) (videoPart : inlineData) : M string :=
  fun w =>
    let c := {| c_prompt := p; c_part := videoPart |} in
    match generateContent_oracle env (calls w) c with
    | Text t => (Return t, log_calls [c] w)
    | Fails msg => (Throw (ProviderError msg), log_calls [c] w)
    end.

(** [for (const prompt of prompts) { ...; results.push({prompt, analysis}) }] *)
Fixpoint promptLoop (videoPart : inlineData) (prompts : list string)
         (acc : list entry) : M (list entry) :=
  match prompts with
  | [] => ret acc
  | p :: rest =>
      do t <- generateContent p videoPart;
      promptLoop videoPart rest (acc ++ [{| prompt := p; analysis := t |}])
  end.

Definition selectPrompts (defaultPrompts : list string)
           (analysisPrompt : option string) : list string :=
  match analysisPrompt with
  | Some p => if truthy analysisPrompt then [p] else defaultPrompts
  | None => defaultPrompts
  end.
End Helpers.

(** [s.split(c)] for a one-character separator *)
Fixpoint split_char (c : ascii) (s : string) : list string :=
  match s with
  | EmptyString => [""]
  | String a s' =>
      if bool_decide (a = c) then "" :: split_char c s'
      else match split_char c s' with
           | [] => [String a ""]
           | h :: t => String a h :: t
           end
  end.

Fixpoint is_prefix (p s : string) : bool :=
  match p, s with
  | EmptyString, _ => true
  | String a p', String b s' => bool_decide (a = b) && is_prefix p' s'
  | String _ _, EmptyString => false
  end.

(** [s.split(sep)] for a separator of one character or more; [skip] counts
    the characters of a matched separator still to pass over. *)
Fixpoint split_go (sep : string) (skip : nat) (s : string) : list string :=
  match s with
  | EmptyString => [""]
  | String a s' =>
      match skip with
      | S k => split_go sep k s'
      | O =>
          if is_prefix sep s
          then "" :: split_go sep (String.length sep - 1) s'
          else match split_go sep 0 s' with
               | [] => [String a ""]
               | h :: t => String a h :: t
               end
      end
  end.

Definition split_str (sep s : string) : list string := split_go sep 0 s.

(** [a || b] on values that are strings or undefined *)
Definition js_or (a b : option string) : option string :=
  if truthy a then a else b.

(** ** HTTP requests and responses *)

Record ToolArgs := MkArgs {
  file_path : option string;
  video_url : option string;
  analysis_prompt : option string
}.

(** The parts of an Express request the handlers read.  Body fields are at
    the type the tools' input schema declares (strings); a missing key is
    [None].  A body whose fields have another JSON type (a number, an
    object) is not a value of this type: what the handlers do with one is
    outside the model. *)
Record Request := MkReq {
  x_api_key : option string;          (* req.headers['x-api-key'] *)
  query_api_key : option string;      (* req.query.api_key *)
  authorization : option string;      (* req.headers.authorization *)
  body_video_url : option string;
  body_analysis_prompt : option string;
  body_method : option string;
  params_name : option string;
  params_arguments : option ToolArgs;
  body_tool : option string;
  body_arguments : option ToolArgs
}.

Inductive ResBody :=
| JsonError (err : string)               (* { error } *)
| JsonFailure (err : string)             (* { success: false, error } *)
| JsonResult (r : AnalysisResult)        (* the analysis result itself *)
| JsonTools (tools : list Tool)          (* { tools } *)
| JsonContent (r : AnalysisResult).      (* { content: [{ type, text: JSON.stringify(result) }] } *)

Record Response := MkRes { status : nat; body : ResBody }.

Definition json (b : ResBody) : Response := {| status := 200; body := b |}.

Definition failure (e : Error) : AnalysisResult :=
  {| success := false; results := None; error := Some (message e) |}.

(** A template literal prints a missing value as [undefined]. *)
Definition show (v : option string) : string := default "undefined" v.

Inductive AuthVia := AuthDisabled | ByApiKey | ByToken | NoKeyConfigured.
Inductive AuthOutcome := Next (via : AuthVia) | Unauthorized.

Definition granted (a : AuthOutcome) : bool :=
  match a with Next _ => true | Unauthorized => false end.

(** The five default prompts of remote-server.js, mcp-server.js and the
    stdio server. *)
Definition defaultPrompts : list string :=
  [ "Describe the video in detail, including what's happening and the main subject matter.";
    "What is the quality of the video recording and audio?";
    "Are there any areas where the video could be improved?";
    "Analyze the pacing and content organization of the video.";
    "How well does this video meet typical user expectations for this type of content?" ].

(** [if (fs.existsSync(p)) { fs.unlinkSync(p); }] *)
Definition unlinkIfExists (p : string) : M unit :=
  do found <- existsSync p;
  if found then unlinkSync p else ret tt.

(** ** remote-server.js *)

Module Remote.
Section Server.
Variable cfg : Config.
Variable env : Env.

Definition validateVideoFile (filePath : string) : M string :=
  do found <- existsSync filePath;
  if negb found then throw (FileNotFound filePath)
  else
    let ext := toLowerCase (extname filePath) in
    match assoc ext SUPPORTED_FORMATS with
    | None => throw UnsupportedFormat
    | Some mime =>
        do stats <- statSync filePath;
        if MAX_FILE_SIZE <? size stats then throw FileTooLarge
        else ret mime
    end.

(** Building the client ([new GoogleGenerativeAI], [getGenerativeModel])
    does no I/O and is taken not to throw. *)
Definition analyzeVideo (videoPath : string) (analysisPrompt : option string)
  : M AnalysisResult :=
  if negb (truthy (GOOGLE_API_KEY cfg)) then throw MissingApiKey
  else
    try_catch
      (do mime <- validateVideoFile videoPath;
       do videoPart <- fileToGenerativePart videoPath mime;
       do res <- promptLoop env videoPart
                   (selectPrompts defaultPrompts analysisPrompt) [];
       ret {| success := true; results := Some res; error := None |})
      (fun e => ret (failure e)).

(** [req.headers.authorization?.split(' ')[1]] *)
Definition bearer (req : Request) : option string :=
  match authorization req with
  | Some h => split_char " " h !! 1%nat
  | None => None
  end.

(** The [authenticate] middleware: [Next] stands for the call of [next()],
    [Unauthorized] for the 401 response. *)
Definition authenticate (req : Request) : AuthOutcome :=
  if negb (ENABLE_AUTH cfg) then Next AuthDisabled
  else if truthy (API_KEY cfg)
          && bool_decide (js_or (x_api_key req) (query_api_key req) = API_KEY cfg)
  then Next ByApiKey
  else
    match bearer req with
    | Some token =>
        if truthy (Some token) && jwt_verify env token then Next ByToken
        else if negb (truthy (API_KEY cfg)) then Next NoKeyConfigured
        else Unauthorized
    | None =>
        if negb (truthy (API_KEY cfg)) then Next NoKeyConfigured
        else Unauthorized
    end.

(** A route registered as [app.post(path, authenticate, handler)]. *)
Definition behind_authenticate (req : Request) (handler : M Response) : M Response :=
  match authenticate req with
  | Next _ => handler
  | Unauthorized => ret {| status := 401; body := JsonError "Authentication required" |}
  end.

(** POST /api/analyze/url *)
Definition api_analyze_url (req : Request) : M Response :=
  behind_authenticate req
    (match body_video_url req with
     | Some url =>
         if negb (truthy (Some url))
         then ret {| status := 400; body := JsonError "Video URL is required" |}
         else
           do tempFilePath <- tempFile env;
           try_catch
             (exec downloadFile env url tempFilePath;
              do result <- analyzeVideo tempFilePath (body_analysis_prompt req);
              exec unlinkIfExists tempFilePath;
              ret (json (JsonResult result)))
             (fun error =>
                exec unlinkIfExists tempFilePath;
                ret {| status := 500; body := JsonFailure (message error) |})
     | None => ret {| status := 400; body := JsonError "Video URL is required" |}
     end).

(** The listing of POST /mcp (tools/list) and POST /api/mcp/tools. *)
Definition tools : list Tool :=
  [ {| name := "analyze_video_file";
       description := "Analyze a video file using Google's Gemini AI";
       properties :=
         [ ("file_path", "Path to the video file (for uploaded files)");
           ("analysis_prompt", "Optional custom prompt for analysis") ];
       required := ["file_path"] |};
    {| name := "analyze_video_url";
       description := "Download and analyze a video from URL";
       properties :=
         [ ("video_url", "URL of the video to analyze");
           ("analysis_prompt", "Optional custom prompt for analysis") ];
       required := ["video_url"] |} ].

(** [case 'analyze_video_file'] of POST /mcp and POST /api/mcp/call *)
Definition call_analyze_video_file (args : option ToolArgs) : M Response :=
  match args ≫= file_path with
  | Some p =>
      if negb (truthy (Some p)) then throw (RequiredArgument "file_path")
      else
        do result <- analyzeVideo p (args ≫= analysis_prompt);
        ret (json (JsonContent result))
  | None => throw (RequiredArgument "file_path")
  end.

(** [case 'analyze_video_url'] of POST /mcp and POST /api/mcp/call *)
Definition call_analyze_video_url (args : option ToolArgs) : M Response :=
  match args ≫= video_url with
  | Some url =>
      if negb (truthy (Some url)) then throw (RequiredArgument "video_url")
      else
        do tempFilePath <- tempFile env;
        try_catch
          (exec downloadFile env url tempFilePath;
           do result <- analyzeVideo tempFilePath (args ≫= analysis_prompt);
           exec unlinkIfExists tempFilePath;
           ret (json (JsonContent result)))
          (fun error =>
             exec unlinkIfExists tempFilePath;
             throw error)
  | None => throw (RequiredArgument "video_url")
  end.

Definition call_tool (toolName : option string) (args : option ToolArgs) : M Response :=
  if bool_decide (toolName = Some "analyze_video_file") then call_analyze_video_file args
  else if bool_decide (toolName = Some "analyze_video_url") then call_analyze_video_url args
  else ret {| status := 404; body := JsonError ("Tool " ++ show toolName ++ " not found") |}.

(** POST /mcp *)
Definition mcp_post (req : Request) : M Response :=
  behind_authenticate req
    (try_catch
       (if bool_decide (body_method req = Some "tools/list")
        then ret (json (JsonTools tools))
        else if bool_decide (body_method req = Some "tools/call")
        then call_tool (params_name req) (params_arguments req)
        else ret {| status := 404;
                    body := JsonError ("Method " ++ show (body_method req) ++ " not found") |})
       (fun error => ret {| status := 500; body := JsonError (message error) |})).

(** POST /api/mcp/tools *)
Definition api_mcp_tools (req : Request) : M Response :=
  behind_authenticate req (ret (json (JsonTools tools))).

(** POST /api/mcp/call *)
Definition api_mcp_call (req : Request) : M Response :=
  behind_authenticate req
    (if negb (truthy (body_tool req))
     then ret {| status := 400; body := JsonError "Tool name is required" |}
     else
       try_catch (call_tool (body_tool req) (body_arguments req))
         (fun error => ret {| status := 500; body := JsonError (message error) |})).

(** *** The WebSocket endpoint /ws/mcp *)

(** [url.split('key=')[1]?.split('&')[0]] *)
Definition url_param (key url : string) : option string :=
  match split_str key url !! 1%nat with
  | Some rest => split_char "&" rest !! 0%nat
  | None => None
  end.

(** The value of [authenticated] when the connection handler has run its
    checks ([ENABLE_AUTH] being on). *)
Definition ws_authenticated (url : string) : bool :=
  let token := url_param "token=" url in
  let apiKey := url_param "api_key=" url in
  if truthy (API_KEY cfg) && bool_decide (apiKey = API_KEY cfg) then true
  else match token with
       | Some t => if truthy token then jwt_verify env t
                   else negb (truthy (API_KEY cfg))
       | None => negb (truthy (API_KEY cfg))
       end.

Definition send (m : WsMessage) : M unit :=
  fun w => (Return tt, push_outbox m w).

Definition now : M Z := fun w => (Return (clock w), w).

(** [wss.on('connection')]: the result tells whether the message handler
    was installed (the socket stays open). *)
Definition ws_on_connection (url : string) : M bool :=
  do clientId <- fresh_uuid env;
  if ENABLE_AUTH cfg && negb (ws_authenticated url)
  then exec send WsAuthRequired; ret false
  else exec send (WsConnected clientId); ret true.

Definition ws_tools : list Tool :=
  [ {| name := "analyze_video_file";
       description := "Analyze a video file using Google's Gemini AI";
       properties :=
         [ ("file_path", "Path to the video file");
           ("analysis_prompt", "Optional custom prompt") ];
       required := ["file_path"] |};
    {| name := "analyze_video_url";
       description := "Download and analyze a video from URL";
       properties :=
         [ ("video_url", "URL of the video");
           ("analysis_prompt", "Optional custom prompt") ];
       required := ["video_url"] |} ].

(** The [arguments] of a [call_tool] message: reading a property of
    [undefined] or [null] throws; any other value is read as an object
    (a key it does not have is [None]). *)
Inductive WsArgs :=
| ArgsMissing
| ArgsObject (a : ToolArgs).

(** [JSON.parse(message)]: [null], or a value whose keys are read (a value
    that is not an object has none of them). *)
Inductive WsData :=
| DNull
| DValue (type tool : JsVal) (args : WsArgs) (id : JsVal).

Inductive Inbound :=
| Unparseable (syntaxError : string)
| Parsed (d : WsData).

(** [analyzeVideo(args.file_path, ...)] is not guarded on this transport:
    with [undefined] for the path [fs.existsSync] answers false. *)
Definition analyzeVideoAt (videoPath analysisPrompt : option string)
  : M AnalysisResult :=
  match videoPath with
  | Some p => analyzeVideo p analysisPrompt
  | None =>
      if negb (truthy (GOOGLE_API_KEY cfg)) then throw MissingApiKey
      else ret (failure (FileNotFound "undefined"))
  end.

(** [downloadFile(args.video_url, ...)]: [fetch(undefined)] rejects. *)
Definition downloadFileAt (url : option string) (outputPath : string) : M string :=
  match url with
  | Some u => downloadFile env u outputPath
  | None => throw (OtherError "Only absolute URLs are supported")
  end.

Definition ws_tool_result (tool : JsVal) (args : WsArgs) : M AnalysisResult :=
  if is_str tool "analyze_video_file" then
    match args with
    | ArgsMissing =>
        throw (OtherError "Cannot read properties of undefined (reading 'file_path')")
    | ArgsObject a => analyzeVideoAt (file_path a) (analysis_prompt a)
    end
  else if is_str tool "analyze_video_url" then
    do tempFilePath <- tempFile env;
    try_catch
      (match args with
       | ArgsMissing =>
           throw (OtherError "Cannot read properties of undefined (reading 'video_url')")
       | ArgsObject a =>
           exec downloadFileAt (video_url a) tempFilePath;
           do result <- analyzeVideo tempFilePath (analysis_prompt a);
           exec unlinkIfExists tempFilePath;
           ret result
       end)
      (fun error => exec unlinkIfExists tempFilePath; throw error)
  else throw (UnknownTool (print tool)).

(** [case 'call_tool'] *)
Definition ws_call_tool (tool : JsVal) (args : WsArgs) (id : JsVal) : M unit :=
  try_catch
    (do result <- ws_tool_result tool args;
     send (WsToolResult id result))
    (fun error => send (WsError id (message error))).

(** [ws.on('message')] *)
Definition ws_on_message (m : Inbound) : M unit :=
  try_catch
    (match m with
     | Unparseable syntaxError => throw (OtherError syntaxError)
     | Parsed DNull =>
         throw (OtherError "Cannot read properties of null (reading 'type')")
     | Parsed (DValue type tool args id) =>
         if is_str type "list_tools" then send (WsTools ws_tools)
         else if is_str type "call_tool" then ws_call_tool tool args id
         else if is_str type "ping" then
           do timestamp <- now; send (WsPong timestamp)
         else send (WsError JUndefined ("Unknown message type: " ++ print type))
     end)
    (fun error => send (WsError JUndefined (message error))).

End Server.
End Remote.

(** ** The servers without [validateVideoFile] *)

(** The [switch (ext)] of mcp-server.js and of the plain HTTP server. *)
Definition mimeBySwitch (videoPath : string) : string :=
  let ext := toLowerCase (extname videoPath) in
  if bool_decide (ext = ".mp4") then "video/mp4"
  else if bool_decide (ext = ".webm") then "video/webm"
  else if bool_decide (ext = ".mov") then "video/quicktime"
  else "video/mp4".

Definition InvalidRequest : Z := -32600.
Definition MethodNotFound : Z := -32601.
Definition InternalError : Z := -32603.

(** What a tool call of the MCP servers returns. *)
Inductive Content :=
| ContentResult (r : AnalysisResult)
| ContentStatus (api_key_configured : bool).

(** ** mcp-server.js *)

Module SSE.
Section Server.
Variable googleApiKey : option string.      (* currentConfig.googleApiKey *)
Variable env : Env.

Definition requireGoogleApiKey : M unit :=
  if negb (truthy googleApiKey)
  then throw (McpError InvalidRequest "Google API key is required for video analysis")
  else ret tt.

Definition analyzeVideo (videoPath : string) (analysisPrompt : option string)
  : M AnalysisResult :=
  exec requireGoogleApiKey;
  try_catch
    (let mime := mimeBySwitch videoPath in
     do videoPart <- fileToGenerativePart videoPath mime;
     do res <- promptLoop env videoPart
                 (selectPrompts defaultPrompts analysisPrompt) [];
     ret {| success := true; results := Some res; error := None |})
    (fun e => ret (failure e)).

Definition tools : list Tool :=
  [ {| name := "analyze_video_file";
       description := "Analyze a video file using Google's Gemini AI (requires Google API key)";
       properties :=
         [ ("file_path", "Path to the video file to analyze");
           ("analysis_prompt", "Optional custom prompt for analysis (if not provided, uses default comprehensive analysis)") ];
       required := ["file_path"] |};
    {| name := "analyze_video_url";
       description := "Download and analyze a video from URL using Google's Gemini AI (requires Google API key)";
       properties :=
         [ ("video_url", "URL of the video to download and analyze");
           ("analysis_prompt", "Optional custom prompt for analysis (if not provided, uses default comprehensive analysis)") ];
       required := ["video_url"] |};
    {| name := "get_server_status";
       description := "Get the current status of the video analysis server";
       properties := [];
       required := [] |} ].

(** The handler of [ListToolsRequestSchema]: it takes no credentials. *)
Definition listTools : M (list Tool) := ret tools.

Definition call_analyze_video_url (args : ToolArgs) : M Content :=
  match video_url args with
  | Some url =>
      if negb (truthy (Some url))
      then throw (McpError InvalidRequest "Video URL is required")
      else
        do tempFilePath <- tempFile env;
        try_catch
          (exec downloadFile env url tempFilePath;
           do urlResult <- analyzeVideo tempFilePath (analysis_prompt args);
           exec unlinkSync tempFilePath;
           ret (ContentResult urlResult))
          (fun error =>
             exec unlinkIfExists tempFilePath;
             throw error)
  | None => throw (McpError InvalidRequest "Video URL is required")
  end.

Definition call_analyze_video_file (args : ToolArgs) : M Content :=
  match file_path args with
  | Some p =>
      if negb (truthy (Some p))
      then throw (McpError InvalidRequest "File path is required")
      else
        do found <- existsSync p;
        if negb found
        then throw (McpError InvalidRequest ("File not found: " ++ p))
        else
          do fileResult <- analyzeVideo p (analysis_prompt args);
          ret (ContentResult fileResult)
  | None => throw (McpError InvalidRequest "File path is required")
  end.

(** The handler of [CallToolRequestSchema]. *)
Definition callTool (toolName : string) (args : ToolArgs) : M Content :=
  try_catch
    (if bool_decide (toolName = "analyze_video_file") then call_analyze_video_file args
     else if bool_decide (toolName = "analyze_video_url") then call_analyze_video_url args
     else if bool_decide (toolName = "get_server_status")
     then ret (ContentStatus (truthy googleApiKey))
     else throw (McpError MethodNotFound ("Tool " ++ toolName ++ " not found")))
    (fun error =>
       match error with
       | McpError _ _ => throw error
       | _ => throw (McpError InternalError (message error))
       end).

End Server.
End SSE.

(** ** The plain HTTP server *)

Module Legacy.
Section Server.
Variable env : Env.

Definition defaultPrompts : list string :=
  [ "Analyze this video and provide a detailed timeline of key moments. For each important moment, scene change, or significant event, specify the approximate timestamp in seconds. Include: 1) A description of what happens at each moment, 2) The specific timestamp (in seconds) when it occurs, 3) Why this moment is significant or visually interesting. Format your response with clear timestamps like 'At 0s:', 'At 15s:', etc.";
    "Identify 5-10 of the most visually interesting or important frames in this video that would make good screenshots. For each frame, provide: 1) The exact timestamp in seconds, 2) What makes this frame significant, 3) What visual elements are present. Format timestamps clearly as numbers in seconds.";
    "Analyze the video's structure and identify timestamps for: 1) The opening/introduction, 2) Key transitions between topics or scenes, 3) Important moments showing the main subject matter, 4) The conclusion. Provide specific timestamps in seconds for each.";
    "Review this video and suggest optimal timestamps (in seconds) where screenshots should be captured to create a comprehensive visual summary. Aim for 6-12 timestamps that together tell the story of the video.";
    "Identify any moments in the video that contain: text overlays, important visual information, key demonstrations, or significant events. For each, provide the timestamp in seconds and describe what should be captured in a screenshot." ].

Definition analyzeVideo (videoPath : string) (analysisPrompt : option string)
  : M AnalysisResult :=
  try_catch
    (let mime := mimeBySwitch videoPath in
     do videoPart <- fileToGenerativePart videoPath mime;
     do res <- promptLoop env videoPart
                 (selectPrompts defaultPrompts analysisPrompt) [];
     ret {| success := true; results := Some res; error := None |})
    (fun e => ret (failure e)).

(** POST /analyze_video_url *)
Definition analyze_video_url (req : Request) : M Response :=
  match body_video_url req with
  | Some url =>
      if negb (truthy (Some url))
      then ret {| status := 400; body := JsonFailure "Video URL is required" |}
      else
        try_catch
          (do tempFilePath <- tempFile env;
           exec downloadFile env url tempFilePath;
           do result <- analyzeVideo tempFilePath (body_analysis_prompt req);
           exec unlinkSync tempFilePath;
           ret (json (JsonResult result)))
          (fun error =>
             ret {| status := 500; body := JsonFailure (message error) |})
  | None => ret {| status := 400; body := JsonFailure "Video URL is required" |}
  end.


End Server.
End Legacy.

(** ** Vocabulary of the properties *)

(** The calls issued for the prompts [ps] on one video part, in order. *)
Definition calls_for (part : inlineData) (ps : list string) : list call :=
  map (fun p => {| c_prompt := p; c_part := part |}) ps.


(** The invariant of the tagged result. *)
Definition tagged (r : AnalysisResult) : Prop :=
  if success r
  then (exists l, results r = Some l /\ l <> []) /\ error r = None
  else (exists msg, error r = Some msg) /\ results r = None.

(** The part that the three [analyzeVideo] share: the loop over the chosen
    prompts followed by the success object, inside the [try]. *)
Definition analysis_tail (env : Env) (defaults : list string)
           (prompt : option string) (part : inlineData) : M AnalysisResult :=
  do res <- promptLoop env part (selectPrompts defaults prompt) [];
  ret {| success := true; results := Some res; error := None |}.

(** ** Sample worlds for the examples *)

Definition clip : file := {| size := 10 * 1024 * 1024 |}.

Definition sample_fs : gmap string file :=
  {[ "/videos/clip.mp4" := clip;
     "/videos/clip.avi" := clip;
     "/videos/notes.txt" := clip;
     "/videos/huge.mkv" := {| size := MAX_FILE_SIZE + 1 |};
     "/videos/full.mov" := {| size := MAX_FILE_SIZE |} ]}.

Definition sample_world : World :=
  {| fs := sample_fs; calls := []; outbox := []; uuids := 0; clock := 1700000000000 |}.

(** A provider that answers every prompt, and one that fails from the
    third call on. *)
Definition provider_ok (hist : list call) (c : call) : gen_reply :=
  Text ("analysis of: " ++ c_prompt c).


(** A network where one URL serves a video, one answers 404 and one breaks
    in the middle of the body. *)
Definition sample_fetch (url : string) : fetch_result :=
  if bool_decide (url = "https://cdn.example/clip.mp4")
  then FetchResponse true "OK" (BodyComplete clip)
  else if bool_decide (url = "https://cdn.example/broken.mp4")
  then FetchResponse true "OK"
         (BodyBroken {| size := 4096 |} "Premature close")
  else FetchResponse false "Not Found" (BodyComplete {| size := 0 |}).

Definition sample_uuid (n : nat) : string :=
  "0000-" ++ String (ascii_of_nat (48 + n mod 10)) "".

Definition sample_env : Env :=
  {| fetch := sample_fetch;
     generateContent_oracle := provider_ok;
     jwt_verify := fun t => bool_decide (t = "signed.jwt.token");
     uuidv4 := sample_uuid |}.


Definition secured : Config :=
  {| ENABLE_AUTH := true; API_KEY := Some "s3cret"; GOOGLE_API_KEY := Some "g-key" |}.

Definition anonymous : Request :=
  {| x_api_key := None; query_api_key := None; authorization := None;
     body_video_url := None; body_analysis_prompt := None; body_method := None;
     params_name := None; params_arguments := None; body_tool := None;
     body_arguments := None |}.

Definition with_credentials (header query auth : option string) : Request :=
  {| x_api_key := header; query_api_key := query; authorization := auth;
     body_video_url := None; body_analysis_prompt := None;
     body_method := Some "tools/list";
     params_name := None; params_arguments := None; body_tool := None;
     body_arguments := None |}.

Definition url_request (url : string) : Request :=
  {| x_api_key := Some "s3cret"; query_api_key := None; authorization := None;
     body_video_url := Some url; body_analysis_prompt := None; body_method := None;
     params_name := None; params_arguments := None; body_tool := None;
     body_arguments := None |}.


(** A computation that sends nothing. *)
Definition keeps_outbox {A} (m : M A) : Prop :=
  forall w, outbox (snd (m w)) = outbox w.

(** The invariant of the scan of [path.extname] over the characters [cs],
    when the positions above [bound] have been visited: a recorded dot
    position holds a dot and lies before the recorded end, and the recorded
    end lies above the positions still to visit. *)
Definition scan_inv (cs : list ascii) (bound : Z) (st : ext_scan) : Prop :=
  (startDot st = (-1)%Z
   \/ ((0 <= startDot st)%Z
       /\ cs !! Z.to_nat (startDot st) = Some "."%char
       /\ (startDot st < end_ st)%Z))
  /\ (end_ st = (-1)%Z \/ (bound < end_ st)%Z).

(** A computation that leaves the files as they are. *)
Definition keeps_fs {A} (m : M A) : Prop :=
  forall w, fs (snd (m w)) = fs w.

(** A computation after which, when it returns, the file [p] is gone. *)
Definition removes (p : string) {A} (m : M A) : Prop :=
  forall w, match m w with
            | (Return _, w') => fs w' !! p = None
            | (Throw _, _) | (Pending, _) => True
            end.

(** The path that [tempFile] allocates in the world [w]. *)
Definition temp_path (env : Env) (w : World) : string :=
  TEMP_DIR ++ "/" ++ uuidv4 env (uuids w) ++ ".mp4".

(** * Further parts of the servers *)

(** ** The upload route of remote-server.js *)

(** The file part of a multipart request, as multer hands it to the
    callbacks of the storage configuration. *)
Record UploadedFile := MkUpload { originalname : string; content : file }.

(** What the client of the upload route gets: a response written by a
    handler, or the answer of the error-handling middleware (status 500,
    [{ error: 'Internal server error', message }], the message being set in
    development only). *)
Inductive UploadReply :=
| Reply (r : Response)
| InternalServerError (devMessage : option string).

Module Upload.
Section Route.
Variable cfg : Config.
Variable env : Env.
Variable development : bool.     (* process.env.NODE_ENV === 'development' *)

Definition allowedExtensions : list string :=
  [".mp4"; ".webm"; ".mov"; ".avi"; ".mkv"].

(** [fileFilter]: [true] for [cb(null, true)], [false] for [cb(new Error(...))]. *)
Definition fileFilter (f : UploadedFile) : bool :=
  let ext := toLowerCase (extname (originalname f)) in
  bool_decide (ext ∈ allowedExtensions).

(** [filename]: [`${uuidv4()}${path.extname(file.originalname)}`] *)
Definition filename (f : UploadedFile) : M string :=
  do u <- fresh_uuid env; ret (u ++ extname (originalname f)).

(** [upload.single('video')] with the disk storage above: the filter runs
    first, then the name is chosen and the part is streamed to
    [TEMP_DIR/name]; a part larger than [limits.fileSize] makes multer remove
    what it wrote and fail.  The result is [req.file.path], or nothing when
    the request has no such part. *)
Definition upload_single (part : option UploadedFile) : M (option string) :=
  match part with
  | None => ret None
  | Some f =>
      if negb (fileFilter f)
      then throw (OtherError ("Unsupported file format. Allowed: "
                              ++ join ", " allowedExtensions))
      else
        do uniqueName <- filename f;
        if MAX_FILE_SIZE <? size (content f)
        then throw (OtherError "File too large")
        else
          exec writeFile (TEMP_DIR ++ "/" ++ uniqueName) (content f);
          ret (Some (TEMP_DIR ++ "/" ++ uniqueName))
  end.

(** The handler of POST /api/analyze/file, after the two middlewares. *)
Definition analyze_file_handler (req : Request) (file : option string)
  : M UploadReply :=
  match file with
  | None => ret (Reply {| status := 400; body := JsonError "No video file provided" |})
  | Some path =>
      try_catch
        (do result <- Remote.analyzeVideo cfg env path (body_analysis_prompt req);
         exec unlinkSync path;
         ret (Reply (json (JsonResult result))))
        (fun error =>
           exec unlinkIfExists path;
           ret (Reply {| status := 500; body := JsonFailure (message error) |}))
  end.

(** POST /api/analyze/file: [authenticate], then [upload.single('video')],
    whose failure goes to the error-handling middleware, then the handler. *)
Definition api_analyze_file (req : Request) (part : option UploadedFile)
  : M UploadReply :=
  match Remote.authenticate cfg env req with
  | Unauthorized =>
      ret (Reply {| status := 401; body := JsonError "Authentication required" |})
  | Next _ =>
      fun w =>
        match upload_single part w with
        | (Return file, w1) => analyze_file_handler req file w1
        | (Throw error, w1) =>
            (Return (InternalServerError
                       (if development then Some (message error) else None)), w1)
        | (Pending, w1) => (Pending, w1)
        end
  end.

End Route.
End Upload.

(** A character that is neither a dot nor a path separator. *)
Definition plain_char (c : ascii) : Prop := c <> "."%char /\ c <> "/"%char.

(** The identifiers [uuidv4()] yields: not empty, and made of characters
    other than the dot and the slash (hexadecimal digits and dashes). *)
Definition uuid_shaped (u : string) : Prop :=
  u <> "" /\ Forall plain_char (list_ascii_of_string u).


(** A computation that changes no file other than [p]. *)
Definition touches_only (p : string) {A} (m : M A) : Prop :=
  forall w q, q <> p -> fs (snd (m w)) !! q = fs w !! q.


Definition holiday : UploadedFile :=
  {| originalname := "Holiday.MP4"; content := clip |}.


(** The world after [tempFile]: one more uuid drawn. *)
Definition drew_uuid (w : World) : World :=
  {| fs := fs w; calls := calls w; outbox := outbox w; uuids := S (uuids w);
     clock := clock w |}.

(** A request of POST /mcp or POST /api/mcp/call that calls [analyze_video_url]
    with the URL and the prompt of the REST request [req], under the same
    credentials. *)
Definition as_tool_call (req : Request) : Request :=
  {| x_api_key := x_api_key req; query_api_key := query_api_key req;
     authorization := authorization req;
     body_video_url := None; body_analysis_prompt := None;
     body_method := Some "tools/call";
     params_name := Some "analyze_video_url";
     params_arguments :=
       Some {| file_path := None; video_url := body_video_url req;
               analysis_prompt := body_analysis_prompt req |};
     body_tool := Some "analyze_video_url";
     body_arguments :=
       Some {| file_path := None; video_url := body_video_url req;
               analysis_prompt := body_analysis_prompt req |} |}.

(** The same call as a WebSocket message with the request id [id]. *)
Definition as_ws_call (req : Request) (id : JsVal) : Remote.Inbound :=
  Remote.Parsed
    (Remote.DValue (JString "call_tool") (JString "analyze_video_url")
       (Remote.ArgsObject
          {| file_path := None; video_url := body_video_url req;
             analysis_prompt := body_analysis_prompt req |})
       id).

(** The envelope of POST /mcp for what the REST endpoint answers. *)
Definition mcp_envelope (r : Response) : Response :=
  match body r with
  | JsonResult result => {| status := status r; body := JsonContent result |}
  | JsonFailure err => {| status := status r; body := JsonError err |}
  | _ => r
  end.

(** The WebSocket reply for what the REST endpoint answers. *)
Definition ws_envelope (id : JsVal) (r : Response) : option WsMessage :=
  match body r with
  | JsonResult result => Some (WsToolResult id result)
  | JsonFailure err => Some (WsError id err)
  | _ => None
  end.


(** The canonical URL operation of remote-server.js: draw the temp path,
    download, analyse, unlink; it ends with the analysis result or with the
    error that the download or [analyzeVideo] threw, or it stays at the
    download for good, with what was written of the temp file on disk. *)
Definition url_outcome (cfg : Config) (env : Env) (url : string)
           (prompt : option string) (w : World)
  : outcome AnalysisResult * World :=
  match downloadFile env url (temp_path env w) (drew_uuid w) with
  | (Return _, w1) =>
      match Remote.analyzeVideo cfg env (temp_path env w) prompt w1 with
      | (Return result, w2) =>
          (Return result, set_fs (delete (temp_path env w)) w2)
      | (Throw e, w2) => (Throw e, set_fs (delete (temp_path env w)) w2)
      | (Pending, w2) => (Pending, w2)
      end
  | (Throw e, w1) => (Throw e, set_fs (delete (temp_path env w)) w1)
  | (Pending, w1) => (Pending, w1)
  end.



(** The download of [url] settles: a response arrives and, when it is a
    successful one, its body ends or fails. *)
Definition download_settles (env : Env) (url : string) : bool :=
  match fetch env url with
  | FetchPending => false
  | FetchResponse true _ (BodyStalls _) => false
  | _ => true
  end.


(** ** Token issuance (remote-server.js, POST /api/auth/token) *)

Inductive TokenResponse :=
| Issued (token expiresIn : string)     (* 200 { token, expiresIn } *)
| InvalidCredentials.                    (* 401 { error: 'Invalid credentials' } *)

Module Token.
Section Route.
Variable getenv : string -> option string.
(** [bcrypt.hashSync(s, 10)] under the salt it draws, and
    [bcrypt.compareSync(data, hash)] *)
Variable bcrypt_hashSync : string -> string -> string.
Variable bcrypt_compareSync : string -> string -> bool.
(** [jwt.sign({ username, timestamp }, JWT_SECRET, { expiresIn: '24h' })] *)
Variable jwt_sign : string -> Z -> string.

(** [process.env.AUTH_USERNAME || 'admin'] *)
Definition validUsername : string :=
  match getenv "AUTH_USERNAME" with
  | Some u => if truthy (Some u) then u else "admin"
  | None => "admin"
  end.

(** [process.env.AUTH_PASSWORD_HASH || bcrypt.hashSync('admin', 10)];
    [salt] is the salt the hash of this request draws. *)
Definition validPasswordHash (salt : string) : string :=
  match getenv "AUTH_PASSWORD_HASH" with
  | Some h => if truthy (Some h) then h else bcrypt_hashSync salt "admin"
  | None => bcrypt_hashSync salt "admin"
  end.

(** The handler; [bcrypt.compareSync] is only reached when the user name
    matches, and throws when the password is missing. *)
Definition api_auth_token (salt : string) (username password : option string)
  : M TokenResponse :=
  if bool_decide (username = Some validUsername)
  then
    match password with
    | Some p =>
        if bcrypt_compareSync p (validPasswordHash salt)
        then do timestamp <- Remote.now;
             ret (Issued (jwt_sign validUsername timestamp) "24h")
        else ret InvalidCredentials
    | None => throw (OtherError "Illegal arguments: undefined, string")
    end
  else ret InvalidCredentials.

End Route.
End Token.

(** ** The client SDK (class VideoAnalysisClient) *)

(** What the promise of a WebSocket tool call is settled with. *)
Inductive Settlement :=
| Resolved (content : AnalysisResult)
| Rejected (err : string).

(** [message.id] of a message the client receives: the number it sent with
    a call, or anything else (absent, a string, ...). *)
Inductive MsgId :=
| IdNumber (n : nat)
| IdOther.

(** The messages of the server, as the client's [switch] reads them. *)
Inductive ServerMsg :=
| SConnected
| STools (tools : list Tool)
| SToolResult (id : MsgId) (content : AnalysisResult)
| SError (id : MsgId) (err : string)
| SPong (timestamp : Z)
| SUnknown.

Inductive ClientEvent :=
| EvAuthenticated (expiresIn : string)
| EvReady
| EvTools (tools : list Tool)
| EvToolResult
| EvWsError (err : string)
| EvPong (timestamp : Z)
| EvMessage.

Record Headers := MkHeaders {
  h_x_api_key : option string;          (* headers['X-API-Key'] *)
  h_authorization : option string       (* headers['Authorization'] *)
}.

Record ClientState := MkClient {
  apiKey : option string;
  username : option string;
  password : option string;
  token : option string;
  ws_open : bool;                        (* this.ws && readyState === OPEN *)
  requestId : nat;
  pendingRequests : gset nat;            (* the keys of the map *)
  timers : gset nat;                     (* calls whose 30 s timer is running *)
  sent : list (nat * string);            (* call_tool messages sent: id, tool *)
  settled : list (nat * Settlement);     (* calls of [resolve] and [reject], oldest first *)
  emitted : list ClientEvent
}.

Module Client.

(** [new VideoAnalysisClient(config)] *)
Definition create (apiKey username password : option string) : ClientState :=
  {| apiKey := apiKey; username := username; password := password;
     token := None; ws_open := false; requestId := 0;
     pendingRequests := ∅; timers := ∅; sent := []; settled := []; emitted := [] |}.

(** [this.token = data.token; this.emit('authenticated', ...)] *)
Definition set_token (t expiresIn : string) (c : ClientState) : ClientState :=
  {| apiKey := apiKey c; username := username c; password := password c;
     token := Some t; ws_open := ws_open c; requestId := requestId c;
     pendingRequests := pendingRequests c; timers := timers c; sent := sent c;
     settled := settled c;
     emitted := emitted c ++ [EvAuthenticated expiresIn] |}.

Section Http.
(** The answer of POST /api/auth/token to a user name and a password. *)
Variable post_token : option string -> option string -> TokenResponse.

(** [authenticate()] *)
Definition authenticate (c : ClientState) : outcome string * ClientState :=
  match post_token (username c) (password c) with
  | Issued t expiresIn => (Return t, set_token t expiresIn c)
  | InvalidCredentials =>
      (Throw (OtherError "Authentication failed: Invalid credentials"), c)
  end.

Definition headers_of (c : ClientState) (withKey : bool) : Headers :=
  {| h_x_api_key := if withKey then apiKey c else None;
     h_authorization :=
       match token c with
       | Some t => if truthy (Some t) then Some ("Bearer " ++ t) else None
       | None => None
       end |}.

(** [getAuthHeaders()] *)
Definition getAuthHeaders (c : ClientState) : outcome Headers * ClientState :=
  if truthy (apiKey c) then (Return (headers_of c true), c)
  else if truthy (username c) && truthy (password c) && negb (truthy (token c))
  then match authenticate c with
       | (Return _, c') => (Return (headers_of c' false), c')
       | (Throw e, c') => (Throw e, c')
       | (Pending, c') => (Pending, c')
       end
  else (Return (headers_of c false), c).
End Http.

(** The request the server sees when the client sends [headers]. *)
Definition request_with (h : Headers) (req : Request) : Request :=
  {| x_api_key := h_x_api_key h; query_api_key := None;
     authorization := h_authorization h;
     body_video_url := body_video_url req;
     body_analysis_prompt := body_analysis_prompt req;
     body_method := body_method req; params_name := params_name req;
     params_arguments := params_arguments req; body_tool := body_tool req;
     body_arguments := body_arguments req |}.

(** [connectWebSocket()]: the path and query of the URL it opens, for a
    base URL without a path. *)
Definition authParams (c : ClientState) : string :=
  match apiKey c with
  | Some k => if truthy (Some k) then "api_key=" ++ k
              else match token c with
                   | Some t => if truthy (Some t) then "token=" ++ t else ""
                   | None => ""
                   end
  | None => match token c with
            | Some t => if truthy (Some t) then "token=" ++ t else ""
            | None => ""
            end
  end.

Definition connect_path (c : ClientState) : string :=
  "/ws/mcp" ++ (if truthy (Some (authParams c)) then "?" ++ authParams c else "").

(** *** Calls over the WebSocket *)

Definition settle (id : nat) (s : Settlement) (ev : ClientEvent) (drop : bool)
           (c : ClientState) : ClientState :=
  {| apiKey := apiKey c; username := username c; password := password c;
     token := token c; ws_open := ws_open c; requestId := requestId c;
     pendingRequests := if drop then pendingRequests c ∖ {[id]} else pendingRequests c;
     timers := timers c; sent := sent c;
     settled := if drop then settled c ++ [(id, s)] else settled c;
     emitted := emitted c ++ [ev] |}.

Definition emit (ev : ClientEvent) (c : ClientState) : ClientState :=
  {| apiKey := apiKey c; username := username c; password := password c;
     token := token c; ws_open := ws_open c; requestId := requestId c;
     pendingRequests := pendingRequests c; timers := timers c; sent := sent c;
     settled := settled c; emitted := emitted c ++ [ev] |}.

(** [message.id && this.pendingRequests.has(message.id)] *)
Definition is_pending (id : MsgId) (c : ClientState) : option nat :=
  match id with
  | IdNumber n =>
      if negb (n =? 0)%nat && bool_decide (n ∈ pendingRequests c) then Some n else None
  | IdOther => None
  end.

(** [handleWebSocketMessage(message)] *)
Definition handleWebSocketMessage (m : ServerMsg) (c : ClientState) : ClientState :=
  match m with
  | SConnected => emit EvReady c
  | STools tools => emit (EvTools tools) c
  | SToolResult id content =>
      match is_pending id c with
      | Some n => settle n (Resolved content) EvToolResult true c
      | None => emit EvToolResult c
      end
  | SError id err =>
      match is_pending id c with
      | Some n => settle n (Rejected err) (EvWsError err) true c
      | None => emit (EvWsError err) c
      end
  | SPong timestamp => emit (EvPong timestamp) c
  | SUnknown => emit EvMessage c
  end.

(** [callToolWS(toolName, args)]: the id is taken, the entry is made, the
    message is sent and the timer started; when the socket is not open
    [sendWebSocketMessage] throws, which rejects the promise and leaves the
    entry without a timer. *)
Definition callToolWS (toolName : string) (c : ClientState)
  : outcome nat * ClientState :=
  let id := S (requestId c) in
  if ws_open c
  then (Return id,
        {| apiKey := apiKey c; username := username c; password := password c;
           token := token c; ws_open := ws_open c; requestId := id;
           pendingRequests := {[id]} ∪ pendingRequests c;
           timers := {[id]} ∪ timers c;
           sent := sent c ++ [(id, toolName)];
           settled := settled c; emitted := emitted c |})
  else (Throw (OtherError "WebSocket is not connected"),
        {| apiKey := apiKey c; username := username c; password := password c;
           token := token c; ws_open := ws_open c; requestId := id;
           pendingRequests := {[id]} ∪ pendingRequests c;
           timers := timers c; sent := sent c;
           settled := settled c; emitted := emitted c |}).

(** The callback of [setTimeout(..., 30000)] for the call [id]. *)
Definition timeout (id : nat) (c : ClientState) : ClientState :=
  if bool_decide (id ∈ timers c)
  then
    let c' :=
      {| apiKey := apiKey c; username := username c; password := password c;
         token := token c; ws_open := ws_open c; requestId := requestId c;
         pendingRequests := pendingRequests c; timers := timers c ∖ {[id]};
         sent := sent c; settled := settled c; emitted := emitted c |} in
    if bool_decide (id ∈ pendingRequests c)
    then {| apiKey := apiKey c'; username := username c'; password := password c';
            token := token c'; ws_open := ws_open c'; requestId := requestId c';
            pendingRequests := pendingRequests c' ∖ {[id]}; timers := timers c';
            sent := sent c';
            settled := settled c' ++ [(id, Rejected "Tool call timeout")];
            emitted := emitted c' |}
    else c'
  else c.

(** What happens to a client, one thing at a time. *)
Inductive Input :=
| Open                                   (* the socket opens *)
| Close                                  (* the socket closes *)
| Call (toolName : string)               (* callToolWS *)
| Receive (m : ServerMsg)                (* ws.on('message'), data that parses *)
| ReceiveInvalid (parseError : string)   (* ws.on('message'), JSON.parse throws *)
| TimerFires (id : nat).

Definition set_open (b : bool) (c : ClientState) : ClientState :=
  {| apiKey := apiKey c; username := username c; password := password c;
     token := token c; ws_open := b; requestId := requestId c;
     pendingRequests := pendingRequests c; timers := timers c; sent := sent c;
     settled := settled c; emitted := emitted c |}.

Definition step (c : ClientState) (i : Input) : ClientState :=
  match i with
  | Open => set_open true c
  | Close => set_open false c
  | Call toolName => snd (callToolWS toolName c)
  | Receive m => handleWebSocketMessage m c
  | ReceiveInvalid parseError => emit (EvWsError parseError) c
  | TimerFires id => timeout id c
  end.

Definition run (c : ClientState) (inputs : list Input) : ClientState :=
  fold_left step inputs c.

Section Calls.
(** The answer of POST /api/auth/token, and the response of the server to
    a POST on a path. *)
Variable post_token : option string -> option string -> TokenResponse.
Variable post : string -> Request -> Response.

(** [response.ok] *)
Definition response_ok (r : Response) : bool :=
  (200 <=? status r)%nat && (status r <=? 299)%nat.

(** [response.statusText], for the statuses the servers set *)
Definition statusText (r : Response) : string :=
  if (status r =? 200)%nat then "OK"
  else if (status r =? 400)%nat then "Bad Request"
  else if (status r =? 401)%nat then "Unauthorized"
  else if (status r =? 404)%nat then "Not Found"
  else if (status r =? 500)%nat then "Internal Server Error"
  else "".

(** [error.error || response.statusText], on the parsed body *)
Definition error_or_statusText (r : Response) : string :=
  let reported :=
    match body r with
    | JsonError err | JsonFailure err => Some err
    | JsonResult result => error result
    | JsonTools _ | JsonContent _ => None
    end in
  match reported with
  | Some err => if truthy (Some err) then err else statusText r
  | None => statusText r
  end.

Definition post_json (h : Headers) (videoUrl analysisPrompt tool : option string)
           (arguments : option ToolArgs) : Request :=
  {| x_api_key := h_x_api_key h; query_api_key := None;
     authorization := h_authorization h;
     body_video_url := videoUrl; body_analysis_prompt := analysisPrompt;
     body_method := None; params_name := None; params_arguments := None;
     body_tool := tool; body_arguments := arguments |}.


(** [callTool(toolName, args = {})] *)
Definition callTool (toolName : string) (args : ToolArgs) (c : ClientState)
  : outcome ResBody * ClientState :=
  match getAuthHeaders post_token c with
  | (Return headers, c') =>
      let response :=
        post "/api/mcp/call"
             (post_json headers None None (Some toolName) (Some args)) in
      if negb (response_ok response)
      then (Throw (OtherError ("Tool call failed: " ++ error_or_statusText response)), c')
      else (Return (body response), c')
  | (Throw e, c') => (Throw e, c')
  | (Pending, c') => (Pending, c')
  end.

(** [listTools()] *)
Definition listTools (c : ClientState) : outcome ResBody * ClientState :=
  match getAuthHeaders post_token c with
  | (Return headers, c') =>
      let response := post "/api/mcp/tools" (post_json headers None None None None) in
      if negb (response_ok response)
      then (Throw (OtherError ("Failed to list tools: " ++ statusText response)), c')
      else (Return (body response), c')
  | (Throw e, c') => (Throw e, c')
  | (Pending, c') => (Pending, c')
  end.
End Calls.

End Client.

(** The invariant of the client's bookkeeping: the ids in use were issued
    (they lie in 1..requestId), a settled call is no longer pending, and no
    call was settled twice. *)
Definition client_inv (c : ClientState) : Prop :=
  (forall n, n ∈ pendingRequests c -> (1 <= n <= requestId c)%nat)
  /\ (forall n, n ∈ map fst (settled c) -> (1 <= n <= requestId c)%nat)
  /\ (forall n, n ∈ map fst (settled c) -> n ∉ pendingRequests c)
  /\ NoDup (map fst (settled c)).


(** The call a message of the server answers, if it names one. *)
Definition addressed_to (m : ServerMsg) : option nat :=
  match m with
  | SToolResult (IdNumber n) _ | SError (IdNumber n) _ => Some n
  | _ => None
  end.


(** A character that reaches the server as the client wrote it, in a header
    after ["Bearer "] and in the URL of the socket after [api_key=] or
    [token=]: a printable ASCII character other than the space, which is
    none of those the URL parser of the client escapes or cuts at (the
    double quote 34, [#] 35, ['] 39, [<] 60, [>] 62) and none of those the
    server splits at ([&] 38, [=] 61). *)
Definition url_safe_char (a : ascii) : Prop :=
  let n := nat_of_ascii a in
  (33 <= n <= 126)%nat
  /\ n <> 34%nat /\ n <> 35%nat /\ n <> 38%nat /\ n <> 39%nat
  /\ n <> 60%nat /\ n <> 61%nat /\ n <> 62%nat.

Definition url_safe (s : string) : Prop :=
  Forall url_safe_char (list_ascii_of_string s).

(** A bcrypt for the examples: the "hash" is the password behind a tag. *)
Definition sample_hashSync (salt s : string) : string := "$2a$10$" ++ s.
Definition sample_compareSync (p h : string) : bool :=
  bool_decide ("$2a$10$" ++ p = h).
Definition sample_sign (u : string) (timestamp : Z) : string := "eyJ." ++ u ++ ".sig".
Definition verifying_env : Env :=
  {| fetch := fetch sample_env;
     generateContent_oracle := generateContent_oracle sample_env;
     jwt_verify := fun t => bool_decide (t = "eyJ.admin.sig");
     uuidv4 := uuidv4 sample_env |}.


(** ** The registry of SSE sessions (mcp-server.js) *)

(** An [SSEServerTransport]; it names its own session. *)
Record Transport := MkTransport { sessionId : string }.

Module Sessions.

(** [const transports = new Map()] *)
Abbreviation Registry := (gmap string Transport).

Inductive Event :=
| Connects (t : Transport)    (* GET /sse: transports.set(transport.sessionId, transport) *)
| Closes (t : Transport).     (* transport.onclose: transports.delete(transport.sessionId) *)

Definition on_event (r : Registry) (e : Event) : Registry :=
  match e with
  | Connects t => <[sessionId t := t]> r
  | Closes t => delete (sessionId t) r
  end.

Definition run (events : list Event) : Registry := fold_left on_event events ∅.

Inductive MessagesReply :=
| MissingSessionId                  (* 400 'Missing sessionId parameter' *)
| SessionNotFound                   (* 404 'Session not found. ...' *)
| HandledBy (t : Transport).        (* transport.handlePostMessage(req, res) *)

(** POST /messages, on [req.query.sessionId] *)
Definition messages (r : Registry) (sessionId : option string) : MessagesReply :=
  match sessionId with
  | Some s =>
      if negb (truthy (Some s)) then MissingSessionId
      else match r !! s with
           | Some t => HandledBy t
           | None => SessionNotFound
           end
  | None => MissingSessionId
  end.

(** GET /health: [activeSessions: transports.size] *)
Definition activeSessions (r : Registry) : nat := stdpp.base.size r.

End Sessions.

(** The session [s] is open after [events]: a transport of that name
    connected, and none of that name closed since. *)
Definition open_session (events : list Sessions.Event) (s : string) : Prop :=
  exists before after,
    events = (before ++ Sessions.Connects {| sessionId := s |} :: after)%list
    /\ Sessions.Closes {| sessionId := s |} ∉ after.

(** ** The stdio server of stdio-server.js: tools without a back end *)

Record SetupRequired (Args : Type) := MkSetup {
  setup_success : bool;
  setup_message : string;
  requiresSetup : bool;
  setup_tool : string;
  providedArgs : Args;
  setupInstructions : string
}.
Arguments MkSetup {Args}.
Arguments setup_success {Args}.
Arguments setup_message {Args}.
Arguments requiresSetup {Args}.
Arguments setup_tool {Args}.
Arguments providedArgs {Args}.

Inductive StdioReply (Args : Type) :=
| TextResult (result : SetupRequired Args)     (* text: JSON.stringify(result) *)
| TextError (text : string).                   (* text, isError: true *)
Arguments TextResult {Args}.
Arguments TextError {Args}.

Module Stdio.
Section Server.
Variable Args : Type.
Variable noArgs : Args.        (* {} *)

(** The [name]s of [mockTools], in order. *)
Definition mockTools : list string :=
  [ "analyze_video"; "extract_frames"; "transcribe_video"; "detect_objects";
    "detect_faces"; "extract_text"; "analyze_activities"; "generate_summary";
    "compare_videos"; "get_video_metadata" ].

Definition setupRequiredResponse (name : string) (args : Args) : SetupRequired Args :=
  {| setup_success := false;
     setup_message := "Tool '" ++ name ++ "' requires video analysis setup. Please configure required dependencies and API keys.";
     requiresSetup := true;
     setup_tool := name;
     providedArgs := args;
     setupInstructions := "Install FFmpeg, configure AI vision APIs (OpenAI, Google Vision, etc.), and set up required environment variables." |}.

(** [executeTool(name, args)]: the [switch] and its [default]; it awaits
    nothing, so it returns ([inr]) or throws ([inl]). *)
Definition executeTool (name : string) (args : Args) : Error + SetupRequired Args :=
  if bool_decide (name = "analyze_video") then inr (setupRequiredResponse name args)
  else if bool_decide (name = "extract_frames") then inr (setupRequiredResponse name args)
  else if bool_decide (name = "transcribe_video") then inr (setupRequiredResponse name args)
  else if bool_decide (name = "detect_objects") then inr (setupRequiredResponse name args)
  else if bool_decide (name = "detect_faces") then inr (setupRequiredResponse name args)
  else if bool_decide (name = "extract_text") then inr (setupRequiredResponse name args)
  else if bool_decide (name = "analyze_activities") then inr (setupRequiredResponse name args)
  else if bool_decide (name = "generate_summary") then inr (setupRequiredResponse name args)
  else if bool_decide (name = "compare_videos") then inr (setupRequiredResponse name args)
  else if bool_decide (name = "get_video_metadata") then inr (setupRequiredResponse name args)
  else inl (OtherError ("Unknown tool: " ++ name)).

(** The handler of [CallToolRequestSchema]: [executeTool(name, args || {})]
    in a [try] whose [catch] answers too. *)
Definition callTool (name : string) (args : option Args) : StdioReply Args :=
  match executeTool name (default noArgs args) with
  | inr result => TextResult result
  | inl error => TextError ("Error: " ++ message error)
  end.

End Server.
End Stdio.


(** A postcondition on the exits of a computation: [Q] holds of what it
    returns, [P] of what it throws, and it may stay pending only if [N]. *)
Definition yields {A} (Q : A -> Prop) (P : Error -> Prop) (N : Prop) (m : M A)
  : Prop :=
  forall w, match fst (m w) with
            | Return a => Q a
            | Throw e => P e
            | Pending => N
            end.











(** What a handler that drew the temp path of [w] does to the files: it
    changes no other file, and once it is done (it returned or threw) the
    files are as they were.  A handler that stays pending at its download
    never reaches its cleanup. *)
Definition leaves_files (env : Env) (w : World) {A} (r : outcome A * World) : Prop :=
  (forall q, q <> temp_path env w -> fs (snd r) !! q = fs w !! q)
  /\ (fst r <> Pending -> fs (snd r) = fs w).



(** A network on which one host sends the head of the body and then
    neither the rest nor an end of the stream. *)
Definition stalling_fetch (url : string) : fetch_result :=
  if bool_decide (url = "https://cdn.example/stalled.mp4")
  then FetchResponse true "OK" (BodyStalls {| size := 4096 |})
  else sample_fetch url.

Definition stalling_env : Env :=
  {| fetch := stalling_fetch;
     generateContent_oracle := provider_ok;
     jwt_verify := fun t => bool_decide (t = "signed.jwt.token");
     uuidv4 := sample_uuid |}.



(** A world with a file over the size ceiling in a format that is not
    supported. *)
Definition oversize_world : World :=
  {| fs := {[ "/videos/big.txt" := {| size := MAX_FILE_SIZE + 1 |} ]};
     calls := []; outbox := []; uuids := 0; clock := 1700000000000 |}.




Example extname_html : extname "index.html" = ".html".
Proof. reflexivity. Qed.
Example extname_two : extname "index.coffee.md" = ".md".
Proof. reflexivity. Qed.
Example extname_trailing_dot : extname "index." = ".".
Proof. reflexivity. Qed.
Example extname_none : extname "index" = "".
Proof. reflexivity. Qed.
Example extname_dotfile : extname ".index" = "".
Proof. reflexivity. Qed.
Example extname_dotfile_md : extname ".index.md" = ".md".
Proof. reflexivity. Qed.
Example extname_dir : extname "/tmp/up.loads/clip" = "".
Proof. reflexivity. Qed.
Example extname_kelvin :
  toLowerCase (extname ("/videos/clip.m" ++ KELVIN_SIGN ++ "v")) = ".mkv".
Proof. reflexivity. Qed.

Example extname_upper : toLowerCase (extname "/tmp/CLIP.MP4") = ".mp4".
Proof. reflexivity. Qed.

(** * Properties *)

(** ** [path.extname] yields nothing or a dot-led extension *)

Lemma substring_head (s : string) : forall (n m : nat) (c : ascii),
  list_ascii_of_string s !! n = Some c ->
  substring n (S m) s = String c (substring (S n) m s).
Proof.
  induction s as [|a s IH]; intros n m c H; simpl in H.
  - destruct n; discriminate.
  - destruct n as [|n]; simpl in H.
    + injection H as <-. simpl. destruct m; simpl; [destruct s|]; reflexivity.
    + simpl. rewrite (IH n m c H). reflexivity.
Qed.

Lemma indexed_from_app (a b : list ascii) : forall i,
  indexed_from i (a ++ b)
  = (indexed_from i a ++ indexed_from (i + Z.of_nat (length a)) b)%list.
Proof.
  induction a as [|x a IH]; intros i; simpl.
  - rewrite Z.add_0_r. reflexivity.
  - rewrite IH. do 3 f_equal. lia.
Qed.

Lemma ext_step_inv (cs : list ascii) (st : ext_scan) (i : Z) (c : ascii) :
  (0 <= i)%Z ->
  cs !! Z.to_nat i = Some c ->
  scan_inv cs i st ->
  scan_inv cs (i - 1) (ext_step st (i, c)).
Proof.
  intros Hi Hc [Hdot Hend]. unfold ext_step.
  destruct (stopped st).
  { split; [exact Hdot|]. destruct Hend; [left|right]; lia. }
  case_bool_decide as Hslash.
  { destruct (negb (matchedSlash st)); simpl;
      (split; [exact Hdot|]); simpl; (destruct Hend; [left|right]; lia). }
  destruct (end_ st =? -1)%Z eqn:He; simpl.
  - apply Z.eqb_eq in He.
    assert (Hsd : startDot st = (-1)%Z) by (destruct Hdot as [|(? & _ & ?)]; lia).
    case_bool_decide as Hd; simpl.
    + rewrite Hsd. simpl. split; simpl.
      * right. subst c. split; [exact Hi|]. split; [exact Hc|]. lia.
      * right. lia.
    + rewrite Hsd. simpl. split; simpl;
        [left; first [exact Hsd|reflexivity]|right; lia].
  - apply Z.eqb_neq in He.
    assert (Hlt : (i < end_ st)%Z) by (destruct Hend; [contradiction|assumption]).
    case_bool_decide as Hd.
    + destruct (startDot st =? -1)%Z eqn:Hs; simpl.
      * split; simpl; [|right; lia].
        right. subst c. split; [exact Hi|]. split; [exact Hc|exact Hlt].
      * destruct (negb (preDotState st =? 1)%Z);
          (split; simpl; [exact Hdot|right; lia]).
    + destruct (negb (startDot st =? -1)%Z);
        (split; simpl; [exact Hdot|right; lia]).
Qed.

Lemma ext_scan_inv (total rest : list ascii) : forall (cs : list ascii) (st : ext_scan),
  total = (cs ++ rest)%list ->
  scan_inv total (Z.of_nat (length cs) - 1) st ->
  scan_inv total (-1) (fold_left ext_step (rev (indexed_from 0%Z cs)) st).
Proof.
  intros cs. revert rest.
  induction cs as [|c cs IH] using rev_ind; intros rest st Htotal Hinv.
  - exact Hinv.
  - rewrite indexed_from_app, rev_app_distr. simpl. rewrite Z.add_0_l.
    rewrite length_app in Hinv. simpl in Hinv.
    apply (IH ([c] ++ rest)%list).
    + rewrite Htotal, <- app_assoc. reflexivity.
    + apply ext_step_inv; [lia| |].
      * rewrite Htotal, Nat2Z.id, <- app_assoc.
        rewrite lookup_app_r by reflexivity.
        rewrite Nat.sub_diag. reflexivity.
      * replace (Z.of_nat (length cs))
          with (Z.of_nat (length cs + 1) - 1)%Z by lia.
        exact Hinv.
Qed.

(** The key looked up in [SUPPORTED_FORMATS] is empty or starts with a dot,
    so it is never the name of a property that every JavaScript object
    inherits. *)
Lemma extname_dot (p : string) :
  extname p = "" \/ exists s, extname p = String "."%char s.
Proof.
  unfold extname.
  pose proof (ext_scan_inv (list_ascii_of_string p) [] (list_ascii_of_string p)
                ext_init) as Hinv.
  fold (ext_scan_path p) in Hinv.
  destruct Hinv as [Hdot _].
  { rewrite app_nil_r. reflexivity. }
  { split; left; reflexivity. }
  destruct (startDot (ext_scan_path p) =? -1)%Z eqn:E;
    [left; reflexivity|].
  apply Z.eqb_neq in E. cbn [orb].
  destruct (_ || _); [left; reflexivity|].
  destruct Hdot as [Hnone|(H0 & Hc & Hlt)]; [contradiction|].
  - right.
    destruct (Z.to_nat (end_ (ext_scan_path p) - startDot (ext_scan_path p)))
      as [|m] eqn:Hm; [lia|].
    rewrite (substring_head p _ m "."%char Hc). eexists. reflexivity.
Qed.

(** ** The validator *)

Lemma validateVideoFile_eq (w : World) (p : string) :
  Remote.validateVideoFile p w =
  match fs w !! p with
  | None => (Throw (FileNotFound p), w)
  | Some f =>
      match assoc (toLowerCase (extname p)) SUPPORTED_FORMATS with
      | None => (Throw UnsupportedFormat, w)
      | Some mime =>
          if MAX_FILE_SIZE <? size f then (Throw FileTooLarge, w)
          else (Return mime, w)
      end
  end.
Proof.
  unfold Remote.validateVideoFile, bind, existsSync, statSync, throw, ret.
  destruct (fs w !! p) as [f|] eqn:Hf.
  - rewrite bool_decide_eq_true_2 by eauto. cbn [negb].
    destruct (assoc (toLowerCase (extname p)) SUPPORTED_FORMATS) as [mime|];
      [|reflexivity].
    rewrite Hf. destruct (MAX_FILE_SIZE <? size f); reflexivity.
  - rewrite bool_decide_eq_false_2 by (intros [? ?]; discriminate).
    reflexivity.
Qed.

Lemma assoc_elem_of (k v : string) (l : list (string * string)) :
  assoc k l = Some v -> (k, v) ∈ l.
Proof.
  induction l as [|[k' v'] l IH]; simpl; [discriminate|].
  case_bool_decide as Hk.
  - intros [= <-]. subst k'. left.
  - intros H. right. auto.
Qed.


Lemma assoc_supported (ext mime : string) :
  (ext, mime) ∈ SUPPORTED_FORMATS -> assoc ext SUPPORTED_FORMATS = Some mime.
Proof.
  unfold SUPPORTED_FORMATS. intros H.
  repeat (apply elem_of_cons in H as [[= -> ->]|H]; [reflexivity|]).
  apply elem_of_nil in H. destruct H.
Qed.

(** ** The prompt loop *)

Lemma log_calls_nil (w : World) : log_calls [] w = w.
Proof. destruct w. unfold log_calls. simpl. rewrite app_nil_r. reflexivity. Qed.

Lemma log_calls_app (a b : list call) (w : World) :
  log_calls b (log_calls a w) = log_calls (a ++ b) w.
Proof. unfold log_calls. simpl. rewrite app_assoc. reflexivity. Qed.



(** Whatever the provider does, the loop returns one entry per prompt or
    throws a provider error (it settles), and it only issues calls. *)
Lemma promptLoop_result (env : Env) (part : inlineData) (ps : list string) :
  forall (acc : list entry) (w : World),
    match promptLoop env part ps acc w with
    | (Return res, w') =>
        exists ts, length ts = length ps /\ res = (acc ++ zip_with Entry ps ts)%list
                   /\ w' = log_calls (calls_for part ps) w
    | (Throw e, w') =>
        exists pre pk post msg,
          ps = (pre ++ pk :: post)%list /\ e = ProviderError msg
          /\ w' = log_calls (calls_for part (pre ++ [pk])) w
    | (Pending, _) => False
    end.
Proof.
  induction ps as [|p ps IH]; intros acc w.
  - simpl. exists []. rewrite app_nil_r, log_calls_nil. auto.
  - simpl. unfold bind at 1. unfold generateContent.
    destruct (generateContent_oracle env (calls w) _) as [t|msg].
    + specialize (IH (acc ++ [{| prompt := p; analysis := t |}])%list
                     (log_calls [{| c_prompt := p; c_part := part |}] w)).
      destruct (promptLoop env part ps _ _) as [[res|e|] w'].
      * destruct IH as (ts & Hlen & -> & ->). exists (t :: ts).
        simpl. rewrite Hlen, log_calls_app, <- app_assoc. auto.
      * destruct IH as (pre & pk & post & m & -> & -> & ->).
        exists (p :: pre), pk, post, m. rewrite log_calls_app. auto.
      * exact IH.
    + exists [], p, ps, msg. auto.
Qed.

(** ** The shape of every analysis *)

Lemma selectPrompts_nonempty (d : list string) (prompt : option string) :
  d <> [] -> selectPrompts d prompt <> [].
Proof.
  intros Hd. unfold selectPrompts.
  destruct prompt as [q|]; [|exact Hd].
  destruct (truthy (Some q)); [discriminate|exact Hd].
Qed.

Lemma tagged_failure (e : Error) : tagged (failure e).
Proof. unfold tagged, failure. simpl. eauto. Qed.

Lemma analysis_tail_eq (env : Env) (defaults : list string)
      (prompt : option string) (part : inlineData) (w : World) :
  try_catch (analysis_tail env defaults prompt part) (fun e => ret (failure e)) w =
  match promptLoop env part (selectPrompts defaults prompt) [] w with
  | (Return res, w') =>
      (Return {| success := true; results := Some res; error := None |}, w')
  | (Throw e, w') => (Return (failure e), w')
  | (Pending, w') => (Pending, w')
  end.
Proof.
  unfold try_catch, analysis_tail, bind, ret.
  destruct (promptLoop env part _ [] w) as [[res|e|] w']; reflexivity.
Qed.

(** The analysis itself always settles: the loop returns or throws, and
    the [catch] turns what it throws into a failure object. *)
Lemma analysis_tail_settles (env : Env) (defaults : list string)
      (prompt : option string) (part : inlineData) (w : World) :
  exists r w',
    try_catch (analysis_tail env defaults prompt part) (fun e => ret (failure e)) w
    = (Return r, w').
Proof.
  rewrite analysis_tail_eq.
  pose proof (promptLoop_result env part (selectPrompts defaults prompt) [] w) as H.
  destruct (promptLoop env part _ [] w) as [[res|e|] w1]; [eauto|eauto|destruct H].
Qed.

Lemma analysis_tail_tagged (env : Env) (defaults : list string)
      (prompt : option string) (part : inlineData) (w w' : World)
      (r : AnalysisResult) :
  defaults <> [] ->
  try_catch (analysis_tail env defaults prompt part) (fun e => ret (failure e)) w
  = (Return r, w') ->
  tagged r.
Proof.
  intros Hd. rewrite analysis_tail_eq.
  pose proof (promptLoop_result env part (selectPrompts defaults prompt) [] w) as H.
  destruct (promptLoop env part _ [] w) as [[res|e|] w1].
  - destruct H as (ts & Hlen & -> & _). intros [= <- _].
    unfold tagged. simpl. split; [|reflexivity].
    eexists. split; [reflexivity|].
    pose proof (selectPrompts_nonempty defaults prompt Hd) as Hne.
    destruct (selectPrompts defaults prompt); [congruence|].
    destruct ts; [discriminate|]. discriminate.
  - intros [= <- _]. apply tagged_failure.
  - discriminate.
Qed.

(** [analyzeVideo] of remote-server.js, step by step. *)
Lemma Remote_analyzeVideo_eq (cfg : Config) (env : Env) (p : string)
      (prompt : option string) (w : World) :
  Remote.analyzeVideo cfg env p prompt w =
  if negb (truthy (GOOGLE_API_KEY cfg)) then (Throw MissingApiKey, w)
  else
    match Remote.validateVideoFile p w with
    | (Return mime, _) =>
        match fs w !! p with
        | Some f =>
            try_catch
              (analysis_tail env defaultPrompts prompt {| data := f; mimeType := mime |})
              (fun e => ret (failure e)) w
        | None => (Return (failure (FileNotFound p)), w)
        end
    | (Throw e, _) => (Return (failure e), w)
    | (Pending, _) => (Pending, w)
    end.
Proof.
  unfold Remote.analyzeVideo.
  destruct (negb (truthy (GOOGLE_API_KEY cfg))); [reflexivity|].
  rewrite validateVideoFile_eq.
  unfold try_catch at 1. unfold bind at 1. rewrite validateVideoFile_eq.
  destruct (fs w !! p) as [f|] eqn:Hf; [|reflexivity].
  destruct (assoc _ SUPPORTED_FORMATS) as [mime|]; [|reflexivity].
  destruct (MAX_FILE_SIZE <? size f); [reflexivity|].
  unfold bind at 1. unfold fileToGenerativePart at 1, bind at 1, readFileSync.
  rewrite Hf. unfold ret at 1.
  unfold try_catch, analysis_tail. reflexivity.
Qed.

Lemma SSE_analyzeVideo_eq (key : option string) (env : Env) (p : string)
      (prompt : option string) (w : World) :
  SSE.analyzeVideo key env p prompt w =
  if negb (truthy key)
  then (Throw (McpError InvalidRequest "Google API key is required for video analysis"), w)
  else
    match fs w !! p with
    | Some f =>
        try_catch
          (analysis_tail env defaultPrompts prompt
             {| data := f; mimeType := mimeBySwitch p |})
          (fun e => ret (failure e)) w
    | None =>
        (Return (failure (OtherError ("ENOENT: no such file or directory, open " ++ p))), w)
    end.
Proof.
  unfold SSE.analyzeVideo, SSE.requireGoogleApiKey.
  destruct (negb (truthy key)); [reflexivity|].
  unfold bind at 1. unfold ret at 1.
  unfold try_catch at 1. unfold bind at 1.
  unfold fileToGenerativePart at 1, bind at 1, readFileSync.
  destruct (fs w !! p) as [f|]; [|reflexivity].
  unfold ret at 1. unfold try_catch, analysis_tail. reflexivity.
Qed.

Lemma Legacy_analyzeVideo_eq (env : Env) (p : string)
      (prompt : option string) (w : World) :
  Legacy.analyzeVideo env p prompt w =
  match fs w !! p with
  | Some f =>
      try_catch
        (analysis_tail env Legacy.defaultPrompts prompt
           {| data := f; mimeType := mimeBySwitch p |})
        (fun e => ret (failure e)) w
  | None =>
      (Return (failure (OtherError ("ENOENT: no such file or directory, open " ++ p))), w)
  end.
Proof.
  unfold Legacy.analyzeVideo.
  unfold try_catch at 1. unfold bind at 1.
  unfold fileToGenerativePart at 1, bind at 1, readFileSync.
  destruct (fs w !! p) as [f|]; [|reflexivity].
  unfold ret at 1. unfold try_catch, analysis_tail. reflexivity.
Qed.

(** C4. Every value that [analyzeVideo] returns, in remote-server.js, in
    mcp-server.js and in the plain HTTP server, is a tagged result: with
    [success = true] it has a non-empty [results] list and no [error];
    with [success = false] it has an [error] and no [results]. *)
Theorem C4_analyze_result_is_tagged (cfg : Config) (env : Env) (p : string)
        (prompt : option string) (w w' : World) (r : AnalysisResult) :
  Remote.analyzeVideo cfg env p prompt w = (Return r, w')
  \/ SSE.analyzeVideo (GOOGLE_API_KEY cfg) env p prompt w = (Return r, w')
  \/ Legacy.analyzeVideo env p prompt w = (Return r, w') ->
  tagged r.
Proof.
  intros [H|[H|H]].
  - rewrite Remote_analyzeVideo_eq in H.
    destruct (negb (truthy (GOOGLE_API_KEY cfg))); [discriminate|].
    destruct (Remote.validateVideoFile p w) as [[mime|e|] w1].
    + destruct (fs w !! p) as [f|].
      * eapply analysis_tail_tagged; [|exact H]. discriminate.
      * injection H as <- _. apply tagged_failure.
    + injection H as <- _. apply tagged_failure.
    + discriminate.
  - rewrite SSE_analyzeVideo_eq in H.
    destruct (negb (truthy (GOOGLE_API_KEY cfg))); [discriminate|].
    destruct (fs w !! p) as [f|].
    + eapply analysis_tail_tagged; [|exact H]. discriminate.
    + injection H as <- _. apply tagged_failure.
  - rewrite Legacy_analyzeVideo_eq in H.
    destruct (fs w !! p) as [f|].
    + eapply analysis_tail_tagged; [|exact H]. discriminate.
    + injection H as <- _. apply tagged_failure.
Qed.

Lemma C4_witness :
  tagged {| success := true;
            results := Some [ {| prompt := "What is shown?";
                                 analysis := "analysis of: What is shown?" |} ];
            error := None |}.
Proof.
  eapply (C4_analyze_result_is_tagged secured sample_env "/videos/clip.mp4"
            (Some "What is shown?") sample_world).
  left. vm_compute. reflexivity.
Defined.

(** ** Validation by extension and by size (remote-server.js) *)



(** The lower-casing is JavaScript's: an extension written with the Kelvin
    sign for the k of .mkv is accepted as .mkv. *)
Example validate_kelvin_mkv :
  let p := "/videos/clip.m" ++ KELVIN_SIGN ++ "v" in
  let w := set_fs (insert p clip) sample_world in
  Remote.validateVideoFile p w = (Return "video/x-matroska", w).
Proof. vm_compute. reflexivity. Qed.


Lemma assoc_None (k : string) (l : list (string * string)) :
  assoc k l = None -> k ∉ map fst l.
Proof.
  induction l as [|[k' v'] l IH]; simpl; [intros _; apply not_elem_of_nil|].
  case_bool_decide as Hk; [discriminate|].
  intros H Hin. apply elem_of_cons in Hin as [Hin|Hin]; [contradiction|].
  exact (IH H Hin).
Qed.

(** C8 (as amended). [validateVideoFile] of remote-server.js tests the
    extension before the size.  A file on disk that it rejects as too large
    has a size that strictly exceeds [MAX_FILE_SIZE] (100 MB); for a file on
    disk with a supported extension the too-large error is thrown exactly
    when the size strictly exceeds the ceiling, a file of the ceiling's size
    or less being accepted; and for any file on disk the too-large error is
    thrown exactly when the extension is supported and the size strictly
    exceeds the ceiling. *)
Theorem C8_size_ceiling (w : World) (p : string) (f : file) :
  fs w !! p = Some f ->
  MAX_FILE_SIZE = 104857600
  /\ (fst (Remote.validateVideoFile p w) = Throw FileTooLarge ->
      MAX_FILE_SIZE < size f)
  /\ (forall mime,
        (toLowerCase (extname p), mime) ∈ SUPPORTED_FORMATS ->
        (Remote.validateVideoFile p w = (Throw FileTooLarge, w)
         <-> MAX_FILE_SIZE < size f)
        /\ (size f <= MAX_FILE_SIZE ->
            Remote.validateVideoFile p w = (Return mime, w)))
  /\ (Remote.validateVideoFile p w = (Throw FileTooLarge, w)
      <-> (toLowerCase (extname p) ∈ map fst SUPPORTED_FORMATS)
          /\ MAX_FILE_SIZE < size f).
Proof.
  intros Hf. split; [reflexivity|]. split; [|split].
  - rewrite validateVideoFile_eq, Hf.
    destruct (assoc _ SUPPORTED_FORMATS) as [mime|]; [|discriminate].
    destruct (MAX_FILE_SIZE <? size f) eqn:Hlt; [|discriminate].
    intros _. apply N.ltb_lt. exact Hlt.
  - intros mime Hin. rewrite validateVideoFile_eq, Hf, (assoc_supported _ _ Hin).
    destruct (MAX_FILE_SIZE <? size f) eqn:Hlt.
    + apply N.ltb_lt in Hlt. split; [tauto|]. lia.
    + apply N.ltb_ge in Hlt. split; [|reflexivity].
      split; [discriminate|]. lia.
  - rewrite validateVideoFile_eq, Hf.
    destruct (assoc (toLowerCase (extname p)) SUPPORTED_FORMATS) as [mime|] eqn:Ha.
    + apply assoc_elem_of in Ha.
      assert (Hin : toLowerCase (extname p) ∈ map fst SUPPORTED_FORMATS).
      { apply list_elem_of_fmap. exists (toLowerCase (extname p), mime).
        split; [reflexivity | exact Ha]. }
      destruct (MAX_FILE_SIZE <? size f) eqn:Hlt.
      * apply N.ltb_lt in Hlt. tauto.
      * apply N.ltb_ge in Hlt. split; [discriminate|]. intros [_ H]. lia.
    + apply assoc_None in Ha. split; [discriminate|]. intros [H _]. contradiction.
Qed.

Lemma C8_witness :
  Remote.validateVideoFile "/videos/huge.mkv" sample_world
  = (Throw FileTooLarge, sample_world)
  /\ Remote.validateVideoFile "/videos/full.mov" sample_world
     = (Return "video/quicktime", sample_world).
Proof.
  split.
  - apply (proj1 (proj2 (proj2 (C8_size_ceiling sample_world "/videos/huge.mkv"
                                  {| size := MAX_FILE_SIZE + 1 |} ltac:(reflexivity))))
             "video/x-matroska").
    + vm_compute. do 4 right. left.
    + vm_compute. reflexivity.
  - apply (proj1 (proj2 (proj2 (C8_size_ceiling sample_world "/videos/full.mov"
                                  {| size := MAX_FILE_SIZE |} ltac:(reflexivity))))
             "video/quicktime").
    + vm_compute. do 2 right. left.
    + vm_compute. discriminate.
Defined.

(** C8, the claim as stated, fails for a file in a format that is not
    supported: the file is on disk and its size strictly exceeds the
    ceiling, yet validation fails with the unsupported-format error and not
    with the too-large error. *)
Lemma C8_counterexample_oversize_unsupported :
  fs oversize_world !! "/videos/big.txt" = Some {| size := MAX_FILE_SIZE + 1 |}
  /\ MAX_FILE_SIZE < MAX_FILE_SIZE + 1
  /\ Remote.validateVideoFile "/videos/big.txt" oversize_world
     = (Throw UnsupportedFormat, oversize_world)
  /\ Remote.validateVideoFile "/videos/big.txt" oversize_world
     <> (Throw FileTooLarge, oversize_world).
Proof.
  split; [reflexivity|]. split; [reflexivity|].
  assert (H : Remote.validateVideoFile "/videos/big.txt" oversize_world
              = (Throw UnsupportedFormat, oversize_world))
    by (vm_compute; reflexivity).
  split; [exact H|]. rewrite H. discriminate.
Qed.

(** ** Prompt selection and the provider calls (remote-server.js) *)



Lemma selectPrompts_empty (d : list string) : selectPrompts d (Some "") = d.
Proof. reflexivity. Qed.

Lemma zip_with_Entry_prompts (ps ts : list string) :
  length ts = length ps -> map prompt (zip_with Entry ps ts) = ps.
Proof.
  revert ts. induction ps as [|p ps IH]; intros [|t ts] H; simpl in *;
    try discriminate; [reflexivity|].
  f_equal. apply IH. lia.
Qed.


Lemma calls_for_prompts (part : inlineData) (ps : list string) :
  map c_prompt (calls_for part ps) = ps.
Proof.
  unfold calls_for. induction ps as [|p ps IH]; simpl; [reflexivity|].
  f_equal. exact IH.
Qed.






(** Whatever the provider does, the prompts sent to it are an initial
    segment of the selected prompts. *)
Lemma Remote_calls_are_a_prefix (cfg : Config) (env : Env) (p : string)
      (prompt : option string) (w : World) :
  exists n,
    map c_prompt (drop (length (calls w))
                    (calls (snd (Remote.analyzeVideo cfg env p prompt w))))
    = take n (selectPrompts defaultPrompts prompt).
Proof.
  rewrite Remote_analyzeVideo_eq.
  destruct (negb (truthy (GOOGLE_API_KEY cfg))).
  { exists 0%nat. simpl. rewrite drop_all. reflexivity. }
  destruct (Remote.validateVideoFile p w) as [[mime|e|] w1].
  2,3: exists 0%nat; simpl; rewrite drop_all; reflexivity.
  destruct (fs w !! p) as [f|].
  2:{ exists 0%nat. simpl. rewrite drop_all. reflexivity. }
  rewrite analysis_tail_eq.
  pose proof (promptLoop_result env {| data := f; mimeType := mime |}
                (selectPrompts defaultPrompts prompt) [] w) as H.
  destruct (promptLoop env _ _ [] w) as [[res|e|] w1'].
  - destruct H as (ts & _ & _ & ->).
    exists (length (selectPrompts defaultPrompts prompt)).
    unfold log_calls. cbn [snd calls].
    rewrite drop_app_length, calls_for_prompts, firstn_all. reflexivity.
  - destruct H as (pre & pk & post & msg & Hsel & _ & ->).
    exists (length (pre ++ [pk])).
    unfold log_calls. cbn [snd calls].
    rewrite drop_app_length, calls_for_prompts, Hsel.
    replace (pre ++ pk :: post)%list with ((pre ++ [pk]) ++ post)%list
      by (rewrite <- app_assoc; reflexivity).
    rewrite take_app_length. reflexivity.
  - destruct H.
Qed.



(** C10. An empty analysis prompt is treated as absent: in the three
    servers [analyzeVideo] with the prompt [""] is [analyzeVideo] with no
    prompt; the prompts chosen are the five default prompts; and when the
    analysis of remote-server.js succeeds, the provider was called once for
    each default prompt, in order, and five results are returned. *)
Theorem C10_empty_prompt_is_absent (cfg : Config) (env : Env) (p : string)
        (w : World) :
  Remote.analyzeVideo cfg env p (Some "") w = Remote.analyzeVideo cfg env p None w
  /\ SSE.analyzeVideo (GOOGLE_API_KEY cfg) env p (Some "") w
     = SSE.analyzeVideo (GOOGLE_API_KEY cfg) env p None w
  /\ Legacy.analyzeVideo env p (Some "") w = Legacy.analyzeVideo env p None w
  /\ selectPrompts defaultPrompts (Some "") = defaultPrompts
  /\ length defaultPrompts = 5%nat
  /\ (forall r w',
        Remote.analyzeVideo cfg env p (Some "") w = (Return r, w') ->
        success r = true ->
        exists res,
          results r = Some res
          /\ length res = 5%nat
          /\ map prompt res = defaultPrompts
          /\ map c_prompt (drop (length (calls w)) (calls w')) = defaultPrompts).
Proof.
  repeat (split; [reflexivity|]).
  intros r w' Hrun Hok.
  rewrite Remote_analyzeVideo_eq in Hrun.
  destruct (negb (truthy (GOOGLE_API_KEY cfg))); [discriminate|].
  destruct (Remote.validateVideoFile p w) as [[mime|e|] w1].
  - destruct (fs w !! p) as [f|].
    + rewrite analysis_tail_eq in Hrun.
      change (selectPrompts defaultPrompts (Some "")) with defaultPrompts in Hrun.
      pose proof (promptLoop_result env {| data := f; mimeType := mime |}
                    defaultPrompts [] w) as H.
      destruct (promptLoop env _ defaultPrompts [] w) as [[res|e|] w1'].
      * destruct H as (ts & Hlen & -> & ->).
        remember (zip_with Entry defaultPrompts ts) as zs eqn:Hzs.
        remember (calls_for {| data := f; mimeType := mime |} defaultPrompts)
          as cs eqn:Hcs.
        injection Hrun as <- <-.
        exists zs. split; [reflexivity|]. subst zs cs.
        split; [rewrite length_zip_with, Hlen; reflexivity|].
        split; [apply zip_with_Entry_prompts; exact Hlen|].
        unfold log_calls. cbn [calls].
        rewrite drop_app_length. apply calls_for_prompts.
      * injection Hrun as <- _. discriminate.
      * discriminate.
    + injection Hrun as <- _. discriminate.
  - injection Hrun as <- _. discriminate.
  - discriminate.
Qed.

Lemma C10_witness :
  Remote.analyzeVideo secured sample_env "/videos/clip.mp4" (Some "") sample_world
  = Remote.analyzeVideo secured sample_env "/videos/clip.mp4" None sample_world
  /\ exists res,
      length res = 5%nat /\ map prompt res = defaultPrompts.
Proof.
  split;
    [exact (proj1 (C10_empty_prompt_is_absent secured sample_env
                     "/videos/clip.mp4" sample_world))|].
  destruct (proj2 (proj2 (proj2 (proj2 (proj2
              (C10_empty_prompt_is_absent secured sample_env "/videos/clip.mp4"
                 sample_world)))))
              {| success := true;
                 results := Some (zip_with Entry defaultPrompts
                                    (map (fun q => "analysis of: " ++ q) defaultPrompts));
                 error := None |}
              (log_calls (calls_for {| data := clip; mimeType := "video/mp4" |}
                            defaultPrompts) sample_world)
              ltac:(vm_compute; reflexivity) ltac:(reflexivity))
    as (res & _ & Hlen & Hprompts & _).
  exists res. split; assumption.
Defined.

(** ** Authentication (remote-server.js) *)

Lemma truthy_nonempty (k : string) : k <> "" -> truthy (Some k) = true.
Proof.
  intros Hk. unfold truthy. rewrite bool_decide_eq_false_2 by exact Hk.
  reflexivity.
Qed.

(** A shared secret read from the environment is never the empty string. *)
Lemma load_config_api_key (getenv : string -> option string) (k : string) :
  API_KEY (load_config getenv) = Some k -> k <> "".
Proof.
  unfold load_config. cbn [API_KEY].
  destruct (getenv "API_KEY") as [v|]; simpl; [|discriminate].
  case_bool_decide as Hv; simpl; [discriminate|].
  intros [= <-]. exact Hv.
Qed.


Lemma authenticate_denies (cfg : Config) (env : Env) (k : string) :
  ENABLE_AUTH cfg = true -> API_KEY cfg = Some k -> k <> "" ->
  forall req,
    js_or (x_api_key req) (query_api_key req) <> Some k ->
    (forall t, Remote.bearer req = Some t -> t <> "" -> jwt_verify env t = false) ->
    Remote.authenticate cfg env req = Unauthorized.
Proof.
  intros Hauth Hkey Hk req Hreq Htok. unfold Remote.authenticate.
  rewrite Hauth, Hkey, (truthy_nonempty k Hk).
  rewrite bool_decide_eq_false_2 by exact Hreq. simpl.
  destruct (Remote.bearer req) as [t|] eqn:Hb; [|reflexivity].
  destruct (decide (t = "")) as [->|Hne]; [reflexivity|].
  rewrite (Htok t eq_refl Hne), andb_false_r. reflexivity.
Qed.




(** ** What a handler sends *)

Lemma keeps_ret {A} (a : A) : keeps_outbox (ret a).
Proof. intros w. reflexivity. Qed.

Lemma keeps_throw {A} (e : Error) : keeps_outbox (@throw A e).
Proof. intros w. reflexivity. Qed.

Lemma keeps_bind {A B} (m : M A) (k : A -> M B) :
  keeps_outbox m -> (forall a, keeps_outbox (k a)) -> keeps_outbox (bind m k).
Proof.
  intros Hm Hk w. unfold bind. specialize (Hm w).
  destruct (m w) as [[a|e|] w1]; simpl in *; [|exact Hm|exact Hm].
  rewrite Hk. exact Hm.
Qed.

Lemma keeps_pending {A} : keeps_outbox (@pending A).
Proof. intros w. reflexivity. Qed.

Lemma keeps_try_catch {A} (m : M A) (h : Error -> M A) :
  keeps_outbox m -> (forall e, keeps_outbox (h e)) -> keeps_outbox (try_catch m h).
Proof.
  intros Hm Hh w. unfold try_catch. specialize (Hm w).
  destruct (m w) as [[a|e|] w1]; simpl in *; [exact Hm| |exact Hm].
  rewrite Hh. exact Hm.
Qed.

Lemma keeps_existsSync (p : string) : keeps_outbox (existsSync p).
Proof. intros w. reflexivity. Qed.

Lemma keeps_unlinkSync (p : string) : keeps_outbox (unlinkSync p).
Proof. intros w. unfold unlinkSync. destruct (fs w !! p); reflexivity. Qed.

Lemma keeps_statSync (p : string) : keeps_outbox (statSync p).
Proof. intros w. unfold statSync. destruct (fs w !! p); reflexivity. Qed.

Lemma keeps_readFileSync (p : string) : keeps_outbox (readFileSync p).
Proof. intros w. unfold readFileSync. destruct (fs w !! p); reflexivity. Qed.

Lemma keeps_writeFile (p : string) (f : file) : keeps_outbox (writeFile p f).
Proof. intros w. reflexivity. Qed.

Lemma keeps_fresh_uuid (env : Env) : keeps_outbox (fresh_uuid env).
Proof. intros w. reflexivity. Qed.

Lemma keeps_generateContent (env : Env) (p : string) (part : inlineData) :
  keeps_outbox (generateContent env p part).
Proof.
  intros w. unfold generateContent.
  destruct (generateContent_oracle env _ _); reflexivity.
Qed.

Create HintDb keeps.
#[local] Hint Resolve keeps_ret keeps_throw keeps_pending keeps_existsSync keeps_unlinkSync
  keeps_statSync keeps_readFileSync keeps_writeFile keeps_fresh_uuid
  keeps_generateContent : keeps.

(** Peels the binds, the [try]s and the branches of a handler. *)
Ltac keeps_step :=
  first
    [ solve [auto with keeps]
    | apply keeps_bind; [|intros ?]
    | apply keeps_try_catch; [|intros ?]
    | progress cbv zeta
    | match goal with
      | |- keeps_outbox (if ?b then _ else _) => destruct b
      | |- keeps_outbox (match ?x with _ => _ end) => destruct x
      end ].

Lemma keeps_promptLoop (env : Env) (part : inlineData) (ps : list string) :
  forall acc, keeps_outbox (promptLoop env part ps acc).
Proof.
  induction ps as [|p ps IH]; intros acc; simpl; repeat keeps_step.
Qed.

Lemma keeps_unlinkIfExists (p : string) : keeps_outbox (unlinkIfExists p).
Proof. unfold unlinkIfExists. repeat keeps_step. Qed.

Lemma keeps_tempFile (env : Env) : keeps_outbox (tempFile env).
Proof. unfold tempFile. repeat keeps_step. Qed.

Lemma keeps_downloadFile (env : Env) (url out : string) :
  keeps_outbox (downloadFile env url out).
Proof. unfold downloadFile. repeat keeps_step. Qed.

Lemma keeps_validateVideoFile (p : string) : keeps_outbox (Remote.validateVideoFile p).
Proof. unfold Remote.validateVideoFile. repeat keeps_step. Qed.

#[local] Hint Resolve keeps_promptLoop keeps_unlinkIfExists keeps_tempFile
  keeps_downloadFile keeps_validateVideoFile : keeps.

Lemma keeps_analyzeVideo (cfg : Config) (env : Env) (p : string)
      (prompt : option string) :
  keeps_outbox (Remote.analyzeVideo cfg env p prompt).
Proof.
  unfold Remote.analyzeVideo, fileToGenerativePart. repeat keeps_step.
Qed.

#[local] Hint Resolve keeps_analyzeVideo : keeps.


(** ** Cleanup of the downloaded file *)

Lemma unlinkIfExists_eq (p : string) (w : World) :
  unlinkIfExists p w = (Return tt, set_fs (delete p) w).
Proof.
  unfold unlinkIfExists, bind, existsSync, unlinkSync, ret.
  destruct (fs w !! p) as [f|] eqn:Hf.
  - rewrite bool_decide_eq_true_2 by eauto. rewrite Hf. reflexivity.
  - rewrite bool_decide_eq_false_2 by (intros [? ?]; discriminate).
    destruct w as [m cs ob n t]. unfold set_fs. simpl in *.
    rewrite (delete_id m p Hf). reflexivity.
Qed.

Lemma removes_unlinkIfExists (p : string) : removes p (unlinkIfExists p).
Proof. intros w. rewrite unlinkIfExists_eq. simpl. apply lookup_delete_eq. Qed.

Lemma removes_unlinkSync (p : string) : removes p (unlinkSync p).
Proof.
  intros w. unfold unlinkSync. destruct (fs w !! p); [|exact I].
  simpl. apply lookup_delete_eq.
Qed.

Lemma removes_throw (p : string) {A} (e : Error) : removes p (@throw A e).
Proof. intros w. exact I. Qed.

(** After any first step, a continuation that removes the file removes it. *)
Lemma removes_bind (p : string) {A B} (m : M A) (k : A -> M B) :
  (forall a, removes p (k a)) -> removes p (bind m k).
Proof.
  intros Hk w. unfold bind.
  destruct (m w) as [[a|e|] w1]; [apply Hk|exact I|exact I].
Qed.

Lemma removes_pending (p : string) {A} : removes p (@pending A).
Proof. intros w. exact I. Qed.

(** A cleanup step followed by code that does not touch the files. *)
Lemma removes_then (p : string) {A B} (c : M A) (k : A -> M B) :
  removes p c -> (forall a, keeps_fs (k a)) -> removes p (bind c k).
Proof.
  intros Hc Hk w. unfold bind. specialize (Hc w).
  destruct (c w) as [[a|e|] w1]; [|exact I|exact I].
  specialize (Hk a w1). destruct (k a w1) as [[b|e|] w2]; [|exact I|exact I].
  simpl in Hk. rewrite Hk. exact Hc.
Qed.

Lemma keeps_fs_ret {A} (a : A) : keeps_fs (ret a).
Proof. intros w. reflexivity. Qed.

Lemma keeps_fs_throw {A} (e : Error) : keeps_fs (@throw A e).
Proof. intros w. reflexivity. Qed.

(** [try { body } catch (error) { unlinkIfExists(p); h(error) }]: when the
    body removes [p] on its way out and [h] leaves the files alone, [p] is
    gone on every exit path; a body that never settles has no exit. *)
Lemma try_cleanup (p : string) {A} (body : M A) (h : Error -> M A) :
  removes p body -> (forall e, keeps_fs (h e)) ->
  forall w,
    fst (try_catch body (fun e => exec unlinkIfExists p; h e) w) <> Pending ->
    fs (snd (try_catch body (fun e => exec unlinkIfExists p; h e) w)) !! p = None.
Proof.
  intros Hbody Hh w. unfold try_catch. specialize (Hbody w).
  destruct (body w) as [[a|e|] w1]; [intros _; exact Hbody| |intros H; destruct H; reflexivity].
  intros _. unfold bind. rewrite unlinkIfExists_eq.
  rewrite Hh. simpl. apply lookup_delete_eq.
Qed.

Lemma tempFile_eq (env : Env) (w : World) :
  tempFile env w
  = (Return (temp_path env w),
     {| fs := fs w; calls := calls w; outbox := outbox w;
        uuids := S (uuids w); clock := clock w |}).
Proof. reflexivity. Qed.

(** POST /api/analyze/url of remote-server.js: however the download and
    the analysis end, the temp file of the request is not on disk once the
    handler is done. *)
Lemma Remote_api_analyze_url_cleans (cfg : Config) (env : Env) (req : Request)
      (w : World) :
  fs w !! temp_path env w = None ->
  fst (Remote.api_analyze_url cfg env req w) <> Pending ->
  fs (snd (Remote.api_analyze_url cfg env req w)) !! temp_path env w = None.
Proof.
  intros Hfresh. unfold Remote.api_analyze_url, Remote.behind_authenticate.
  destruct (Remote.authenticate cfg env req); [|intros _; exact Hfresh].
  destruct (body_video_url req) as [url|]; [|intros _; exact Hfresh].
  destruct (negb (truthy (Some url))); [intros _; exact Hfresh|].
  unfold bind at 1. rewrite tempFile_eq.
  apply try_cleanup; [|intros e; apply keeps_fs_ret].
  apply removes_bind. intros _. apply removes_bind. intros result.
  apply removes_then; [apply removes_unlinkIfExists|].
  intros _. apply keeps_fs_ret.
Qed.

(** The [analyze_video_url] case of POST /mcp and POST /api/mcp/call. *)
Lemma Remote_call_analyze_video_url_cleans (cfg : Config) (env : Env)
      (args : option ToolArgs) (w : World) :
  fs w !! temp_path env w = None ->
  fst (Remote.call_analyze_video_url cfg env args w) <> Pending ->
  fs (snd (Remote.call_analyze_video_url cfg env args w)) !! temp_path env w = None.
Proof.
  intros Hfresh. unfold Remote.call_analyze_video_url.
  destruct (args ≫= video_url) as [url|]; [|intros _; exact Hfresh].
  destruct (negb (truthy (Some url))); [intros _; exact Hfresh|].
  unfold bind at 1. rewrite tempFile_eq.
  apply try_cleanup; [|intros e; apply keeps_fs_throw].
  apply removes_bind. intros _. apply removes_bind. intros result.
  apply removes_then; [apply removes_unlinkIfExists|].
  intros _. apply keeps_fs_ret.
Qed.

(** The [analyze_video_url] case of a WebSocket [call_tool] message. *)
Lemma Remote_ws_analyze_video_url_cleans (cfg : Config) (env : Env)
      (args : Remote.WsArgs) (w : World) :
  fst (Remote.ws_tool_result cfg env (JString "analyze_video_url") args w) <> Pending ->
  fs (snd (Remote.ws_tool_result cfg env (JString "analyze_video_url") args w))
    !! temp_path env w = None.
Proof.
  unfold Remote.ws_tool_result. cbn [is_str].
  rewrite bool_decide_eq_false_2 by discriminate.
  rewrite bool_decide_eq_true_2 by reflexivity.
  unfold bind at 1. rewrite tempFile_eq.
  apply try_cleanup; [|intros e; apply keeps_fs_throw].
  destruct args as [|a]; [apply removes_throw|].
  apply removes_bind. intros _. apply removes_bind. intros result.
  apply removes_then; [apply removes_unlinkIfExists|].
  intros _. apply keeps_fs_ret.
Qed.

(** The [analyze_video_url] tool of mcp-server.js. *)
Lemma SSE_call_analyze_video_url_cleans (key : option string) (env : Env)
      (args : ToolArgs) (w : World) :
  fs w !! temp_path env w = None ->
  fst (SSE.call_analyze_video_url key env args w) <> Pending ->
  fs (snd (SSE.call_analyze_video_url key env args w)) !! temp_path env w = None.
Proof.
  intros Hfresh. unfold SSE.call_analyze_video_url.
  destruct (video_url args) as [url|]; [|intros _; exact Hfresh].
  destruct (negb (truthy (Some url))); [intros _; exact Hfresh|].
  unfold bind at 1. rewrite tempFile_eq.
  apply try_cleanup; [|intros e; apply keeps_fs_throw].
  apply removes_bind. intros _. apply removes_bind. intros result.
  apply removes_then; [apply removes_unlinkSync|].
  intros _. apply keeps_fs_ret.
Qed.

(** C1, on the plain HTTP server. When the response of the download is
    successful but its body breaks after part of it was written, POST
    /analyze_video_url answers 500 and the temp file of the request is
    still on disk: the [catch] of this handler does not unlink it. *)
Theorem C1_plain_server_leaves_temp_file (env : Env) (req : Request)
        (url statusText msg : string) (written : file) (w : World) :
  body_video_url req = Some url ->
  url <> "" ->
  fetch env url = FetchResponse true statusText (BodyBroken written msg) ->
  fst (Legacy.analyze_video_url env req w)
  = Return {| status := 500; body := JsonFailure msg |}
  /\ fs (snd (Legacy.analyze_video_url env req w)) !! temp_path env w = Some written.
Proof.
  intros Hurl Hne Hfetch. unfold Legacy.analyze_video_url.
  rewrite Hurl, (truthy_nonempty url Hne). cbn [negb].
  unfold try_catch, bind at 1. rewrite tempFile_eq.
  unfold bind at 1. unfold downloadFile. rewrite Hfetch. cbn [negb].
  unfold bind, writeFile, throw, ret. cbn.
  split; [reflexivity|]. apply lookup_insert_eq.
Qed.

Lemma C1_witness :
  fst (Legacy.analyze_video_url sample_env
         (url_request "https://cdn.example/broken.mp4") sample_world)
  = Return {| status := 500; body := JsonFailure "Premature close" |}
  /\ fs (snd (Legacy.analyze_video_url sample_env
                (url_request "https://cdn.example/broken.mp4") sample_world))
       !! "/tmp/video-analysis-uploads/0000-0.mp4"
     = Some {| size := 4096 |}.
Proof.
  apply (C1_plain_server_leaves_temp_file sample_env
           (url_request "https://cdn.example/broken.mp4")
           "https://cdn.example/broken.mp4" "OK" "Premature close"
           {| size := 4096 |} sample_world);
    [reflexivity|discriminate|reflexivity].
Defined.

(** ** Tool discovery *)

(** C2, the claim as stated, fails on remote-server.js: with authentication
    enabled and a shared secret configured, the listing endpoints answer
    401 to a request without credentials and to one with wrong credentials,
    and the WebSocket handshake without credentials is refused. *)
Lemma C2_counterexample_remote_listing :
  Remote.api_mcp_tools secured sample_env (with_credentials None None None) sample_world
  = (Return {| status := 401; body := JsonError "Authentication required" |},
     sample_world)
  /\ Remote.mcp_post secured sample_env
       (with_credentials (Some "guess") None (Some "Bearer forged.token")) sample_world
     = (Return {| status := 401; body := JsonError "Authentication required" |},
        sample_world)
  /\ fst (Remote.ws_on_connection secured sample_env "/ws/mcp" sample_world)
     = Return false.
Proof. repeat split; vm_compute; reflexivity. Qed.

(** C2 (as amended). mcp-server.js answers the tool listing without any
    authentication check.  On remote-server.js the listing endpoints POST
    /api/mcp/tools and POST /mcp (tools/list) sit behind [authenticate]:
    they return the tool list exactly when [authenticate] grants the
    request, which it always does when authentication is disabled or no
    shared secret is configured, and they answer 401 when a shared secret is
    configured and the request carries neither it nor a token that
    verifies.  Over WebSocket the handshake is open exactly when
    authentication is disabled or the handshake check passes, and
    [list_tools] is then answered with the tool list. *)
Theorem C2_discovery_gating (cfg : Config) (env : Env) (req : Request) (w : World) :
  SSE.listTools w = (Return SSE.tools, w)
  /\ Remote.api_mcp_tools cfg env req w
     = (if granted (Remote.authenticate cfg env req)
        then (Return (json (JsonTools Remote.tools)), w)
        else (Return {| status := 401; body := JsonError "Authentication required" |}, w))
  /\ (body_method req = Some "tools/list" ->
      Remote.mcp_post cfg env req w
      = (if granted (Remote.authenticate cfg env req)
         then (Return (json (JsonTools Remote.tools)), w)
         else (Return {| status := 401; body := JsonError "Authentication required" |}, w)))
  /\ (ENABLE_AUTH cfg = false \/ API_KEY cfg = None ->
      granted (Remote.authenticate cfg env req) = true)
  /\ (forall k,
        ENABLE_AUTH cfg = true -> API_KEY cfg = Some k -> k <> "" ->
        js_or (x_api_key req) (query_api_key req) <> Some k ->
        (forall t, Remote.bearer req = Some t -> t <> "" -> jwt_verify env t = false) ->
        granted (Remote.authenticate cfg env req) = false)
  /\ (forall url,
        fst (Remote.ws_on_connection cfg env url w)
        = Return (negb (ENABLE_AUTH cfg && negb (Remote.ws_authenticated cfg env url))))
  /\ (forall tool args id,
        Remote.ws_on_message cfg env
          (Remote.Parsed (Remote.DValue (JString "list_tools") tool args id)) w
        = (Return tt, push_outbox (WsTools Remote.ws_tools) w)).
Proof.
  split; [reflexivity|]. split.
  { unfold Remote.api_mcp_tools, Remote.behind_authenticate.
    destruct (Remote.authenticate cfg env req); reflexivity. }
  split.
  { intros Hm. unfold Remote.mcp_post, Remote.behind_authenticate.
    destruct (Remote.authenticate cfg env req); [|reflexivity].
    rewrite Hm. rewrite bool_decide_eq_true_2 by reflexivity. reflexivity. }
  split.
  { intros [Hoff|Hnokey]; unfold Remote.authenticate.
    - rewrite Hoff. reflexivity.
    - rewrite Hnokey. destruct (ENABLE_AUTH cfg); [|reflexivity]. simpl.
      destruct (Remote.bearer req) as [t|]; [|reflexivity].
      destruct (_ && _); reflexivity. }
  split.
  { intros k Hauth Hkey Hk Hreq Htok.
    rewrite (authenticate_denies cfg env k Hauth Hkey Hk req Hreq Htok).
    reflexivity. }
  split.
  { intros url. unfold Remote.ws_on_connection, bind, fresh_uuid.
    destruct (ENABLE_AUTH cfg && negb (Remote.ws_authenticated cfg env url));
      reflexivity. }
  intros tool args id. reflexivity.
Qed.

Lemma C2_witness :
  Remote.mcp_post secured sample_env
    (with_credentials (Some "s3cret") None None) sample_world
  = (Return (json (JsonTools Remote.tools)), sample_world)
  /\ granted (Remote.authenticate
                {| ENABLE_AUTH := true; API_KEY := None; GOOGLE_API_KEY := None |}
                sample_env (with_credentials None None (Some "Bearer forged.token")))
     = true
  /\ granted (Remote.authenticate secured sample_env
                (with_credentials None (Some "guess") None)) = false.
Proof.
  split; [|split].
  - apply (proj1 (proj2 (proj2
             (C2_discovery_gating secured sample_env
                (with_credentials (Some "s3cret") None None) sample_world)))).
    reflexivity.
  - apply (proj1 (proj2 (proj2 (proj2
             (C2_discovery_gating
                {| ENABLE_AUTH := true; API_KEY := None; GOOGLE_API_KEY := None |}
                sample_env (with_credentials None None (Some "Bearer forged.token"))
                sample_world))))).
    right. reflexivity.
  - apply (proj1 (proj2 (proj2 (proj2 (proj2
             (C2_discovery_gating secured sample_env
                (with_credentials None (Some "guess") None) sample_world)))))
             "s3cret"); try reflexivity; discriminate.
Defined.

(** * Further properties *)

(** ** The extension of a stored upload *)

Lemma list_ascii_app (a b : string) :
  list_ascii_of_string (a ++ b)
  = (list_ascii_of_string a ++ list_ascii_of_string b)%list.
Proof. induction a as [|c a IH]; simpl; [reflexivity|]. rewrite IH. reflexivity. Qed.

Lemma string_length_chars (s : string) :
  String.length s = length (list_ascii_of_string s).
Proof. induction s as [|c s IH]; simpl; [reflexivity|]. rewrite IH. reflexivity. Qed.

Lemma substring_all (s : string) : substring 0 (String.length s) s = s.
Proof. induction s as [|c s IH]; simpl; [reflexivity|]. rewrite IH. reflexivity. Qed.

Lemma substring_after (a b : string) :
  substring (String.length a) (String.length b) (a ++ b) = b.
Proof. induction a as [|c a IH]; simpl; [apply substring_all|exact IH]. Qed.

Lemma fold_stopped (l : list (Z * ascii)) (st : ext_scan) :
  stopped st = true -> fold_left ext_step l st = st.
Proof.
  intros Hs. induction l as [|[i c] l IH]; cbn [fold_left]; [reflexivity|].
  assert (ext_step st (i, c) = st) as ->
      by (unfold ext_step; rewrite Hs; reflexivity).
  exact IH.
Qed.

(** Once the end of the component is known, a plain character changes the
    scan only by recording that something precedes the dot. *)
Lemma ext_step_plain_idle (st : ext_scan) (i : Z) (c : ascii) :
  plain_char c ->
  stopped st = false ->
  end_ st <> (-1)%Z ->
  startDot st = (-1)%Z \/ preDotState st = (-1)%Z ->
  ext_step st (i, c) = st.
Proof.
  intros [Hdot Hslash] Hs He Hidle. unfold ext_step. rewrite Hs.
  rewrite bool_decide_eq_false_2 by exact Hslash.
  rewrite bool_decide_eq_false_2 by exact Hdot.
  apply Z.eqb_neq in He. rewrite He.
  destruct (startDot st =? -1)%Z eqn:Hsd; simpl; [reflexivity|].
  apply Z.eqb_neq in Hsd. destruct Hidle as [Hn|Hp]; [contradiction|].
  destruct st. simpl in *. subst. reflexivity.
Qed.

Lemma fold_plain_idle (l : list (Z * ascii)) (st : ext_scan) :
  Forall (fun ic => plain_char (snd ic)) l ->
  stopped st = false ->
  end_ st <> (-1)%Z ->
  startDot st = (-1)%Z \/ preDotState st = (-1)%Z ->
  fold_left ext_step l st = st.
Proof.
  intros Hl Hs He Hidle.
  induction Hl as [|[i c] l Hc Hl IH]; cbn [fold_left]; [reflexivity|].
  rewrite (ext_step_plain_idle st i c Hc Hs He Hidle). exact IH.
Qed.

Lemma plain_indexed (cs : list ascii) : forall i,
  Forall plain_char cs ->
  Forall (fun ic => plain_char (snd ic)) (rev (indexed_from i cs)).
Proof.
  induction cs as [|c cs IH]; intros i H; simpl; [constructor|].
  inversion H as [|? ? Hc Hcs]; subst.
  apply Forall_app. split; [apply IH; exact Hcs|].
  constructor; [exact Hc|constructor].
Qed.

Lemma indexed_from_snoc (cs : list ascii) (c : ascii) (i : Z) :
  rev (indexed_from i (cs ++ [c]))
  = (i + Z.of_nat (length cs), c)%Z :: rev (indexed_from i cs).
Proof. rewrite indexed_from_app, rev_app_distr. reflexivity. Qed.

Lemma indexed_from_mid (a b : list ascii) (x : ascii) (i : Z) :
  rev (indexed_from i (a ++ x :: b))
  = (rev (indexed_from (i + Z.of_nat (length a) + 1) b)
       ++ (i + Z.of_nat (length a), x)%Z :: rev (indexed_from i a))%list.
Proof.
  rewrite indexed_from_app, rev_app_distr. simpl.
  rewrite <- app_assoc. reflexivity.
Qed.

Lemma ext_step_first_plain (i : Z) (c : ascii) :
  plain_char c ->
  ext_step ext_init (i, c)
  = {| startDot := -1; startPart := 0; end_ := i + 1; matchedSlash := false;
       preDotState := 0; stopped := false |}.
Proof.
  intros [Hd Hs]. unfold ext_step. simpl.
  rewrite bool_decide_eq_false_2 by exact Hs.
  rewrite bool_decide_eq_false_2 by exact Hd. reflexivity.
Qed.

Lemma ext_step_first_dot (sp e pd i : Z) (ms : bool) :
  ext_step {| startDot := -1; startPart := sp; end_ := e; matchedSlash := ms;
              preDotState := pd; stopped := false |} (i, "."%char)
  = {| startDot := i; startPart := sp;
       end_ := if (e =? -1)%Z then i + 1 else e;
       matchedSlash := if (e =? -1)%Z then false else ms;
       preDotState := pd; stopped := false |}.
Proof.
  unfold ext_step. cbn [stopped end_].
  rewrite bool_decide_eq_false_2 by discriminate.
  rewrite bool_decide_eq_true_2 by reflexivity.
  destruct (e =? -1)%Z; reflexivity.
Qed.

Lemma ext_step_before_dot (sd sp e pd i : Z) (ms : bool) (c : ascii) :
  plain_char c -> sd <> (-1)%Z -> e <> (-1)%Z ->
  ext_step {| startDot := sd; startPart := sp; end_ := e; matchedSlash := ms;
              preDotState := pd; stopped := false |} (i, c)
  = {| startDot := sd; startPart := sp; end_ := e; matchedSlash := ms;
       preDotState := -1; stopped := false |}.
Proof.
  intros [Hd Hs] Hsd He. unfold ext_step. cbn [stopped end_].
  rewrite bool_decide_eq_false_2 by exact Hs.
  rewrite bool_decide_eq_false_2 by exact Hd.
  apply Z.eqb_neq in He. rewrite He. cbn [startDot].
  apply Z.eqb_neq in Hsd. rewrite Hsd. reflexivity.
Qed.

Lemma scan_plain_tail (T : list ascii) (i : Z) :
  (0 <= i)%Z ->
  Forall plain_char T ->
  fold_left ext_step (rev (indexed_from i T)) ext_init
  = {| startDot := -1; startPart := 0;
       end_ := match T with [] => -1 | _ => i + Z.of_nat (length T) end;
       matchedSlash := match T with [] => true | _ => false end;
       preDotState := 0; stopped := false |}.
Proof.
  intros Hi HT. destruct T as [|c0 T0] using rev_ind; [reflexivity|].
  clear IHT0. apply Forall_app in HT as [HT0 Hc]. inversion Hc as [|? ? Hplain _]; subst.
  rewrite indexed_from_snoc. cbn [fold_left].
  rewrite (ext_step_first_plain _ c0 Hplain).
  rewrite fold_plain_idle.
  - rewrite length_app. simpl.
    destruct (T0 ++ [c0])%list eqn:E; [destruct T0; discriminate|].
    f_equal. lia.
  - apply plain_indexed. exact HT0.
  - reflexivity.
  - simpl. lia.
  - left. reflexivity.
Qed.

Ltac eqb_cases :=
  repeat match goal with
         | |- context [(?a =? ?b)%Z] =>
             let E := fresh "E" in
             destruct (a =? b)%Z eqn:E;
             [apply Z.eqb_eq in E|apply Z.eqb_neq in E]
         end.

Lemma scan_tail_dot (T : list ascii) (i0 : Z) :
  (0 <= i0)%Z ->
  Forall plain_char T ->
  ext_step (fold_left ext_step (rev (indexed_from (i0 + 1) T)) ext_init)
    (i0, "."%char)
  = {| startDot := i0; startPart := 0; end_ := i0 + 1 + Z.of_nat (length T);
       matchedSlash := false; preDotState := 0; stopped := false |}.
Proof.
  intros Hi HT. rewrite scan_plain_tail; [|lia|exact HT].
  rewrite ext_step_first_dot.
  destruct T as [|t T]; cbv iota.
  - simpl. f_equal. lia.
  - eqb_cases; [cbn [length] in *; lia|reflexivity].
Qed.

Lemma ext_step_slash (sd sp e pd i : Z) :
  ext_step {| startDot := sd; startPart := sp; end_ := e; matchedSlash := false;
              preDotState := pd; stopped := false |} (i, "/"%char)
  = {| startDot := sd; startPart := i + 1; end_ := e; matchedSlash := false;
       preDotState := pd; stopped := true |}.
Proof.
  unfold ext_step. cbn [stopped matchedSlash negb].
  rewrite bool_decide_eq_true_2 by reflexivity. reflexivity.
Qed.

(** The scan of [dir/u.t]: the dot of the extension is found, the
    identifier before it is seen, and the scan stops at the separator. *)
Lemma scan_stored (D U T : list ascii) (c : ascii) :
  Forall plain_char (U ++ [c]) ->
  Forall plain_char T ->
  fold_left ext_step
    (rev (indexed_from 0%Z (D ++ "/"%char :: (U ++ [c]) ++ "."%char :: T)))
    ext_init
  = {| startDot := Z.of_nat (length D) + 1 + Z.of_nat (length U) + 1;
       startPart := Z.of_nat (length D) + 1;
       end_ := Z.of_nat (length D) + 1 + Z.of_nat (length U) + 1 + 1
               + Z.of_nat (length T);
       matchedSlash := false; preDotState := -1; stopped := true |}.
Proof.
  intros HU HT.
  apply Forall_app in HU as [HU Hc]. inversion Hc as [|? ? Hplain _]; subst.
  rewrite indexed_from_mid, fold_left_app. cbn [fold_left].
  rewrite indexed_from_mid, fold_left_app. cbn [fold_left].
  rewrite indexed_from_snoc. cbn [fold_left].
  rewrite scan_tail_dot; [|lia|exact HT].
  rewrite (ext_step_before_dot _ _ _ _ _ _ c Hplain); [|lia|lia].
  rewrite (fold_plain_idle (rev (indexed_from _ U)));
    [|apply plain_indexed; exact HU|reflexivity|cbn [end_]; lia|right; reflexivity].
  rewrite ext_step_slash.
  rewrite fold_stopped by reflexivity.
  rewrite length_app. cbn [length]. f_equal; lia.
Qed.
Lemma string_app_assoc (a b c : string) : (a ++ b) ++ c = a ++ (b ++ c).
Proof.
  induction a as [|x a IH]; [reflexivity|].
  change (String x ((a ++ b) ++ c) = String x (a ++ (b ++ c))).
  rewrite IH. reflexivity.
Qed.

Lemma string_length_app (a b : string) :
  String.length (a ++ b) = (String.length a + String.length b)%nat.
Proof.
  induction a as [|x a IH]; [reflexivity|].
  change (S (String.length (a ++ b)) = S (String.length a + String.length b)).
  rewrite IH. reflexivity.
Qed.

(** A file stored as [dir/u.t], with [u] shaped like a uuid and [t] free of
    dots and separators, has the extension [.t]. *)
Lemma extname_stored (dir u t : string) :
  uuid_shaped u ->
  Forall plain_char (list_ascii_of_string t) ->
  extname (dir ++ "/" ++ u ++ String "."%char t) = String "."%char t.
Proof.
  intros [Hne Hu] Ht.
  assert (Hlast : list_ascii_of_string u <> []).
  { destruct u; [contradiction|discriminate]. }
  destruct (exists_last Hlast) as (l & x & Hchars). rewrite Hchars in Hu.
  unfold extname, ext_scan_path.
  rewrite !list_ascii_app, Hchars. cbn [list_ascii_of_string app].
  rewrite (scan_stored (list_ascii_of_string dir) l (list_ascii_of_string t) x Hu Ht).
  cbn [startDot end_ preDotState startPart].
  assert (Hlen : String.length u = S (length l)).
  { rewrite string_length_chars, Hchars, length_app. simpl. lia. }
  assert (Hsub :
    substring
      (Z.to_nat (Z.of_nat (length (list_ascii_of_string dir)) + 1
                 + Z.of_nat (length l) + 1))
      (Z.to_nat (Z.of_nat (length (list_ascii_of_string dir)) + 1
                 + Z.of_nat (length l) + 1 + 1
                 + Z.of_nat (length (list_ascii_of_string t))
                 - (Z.of_nat (length (list_ascii_of_string dir)) + 1
                    + Z.of_nat (length l) + 1)))
      (dir ++ "/" ++ u ++ String "."%char t) = String "."%char t).
  { replace (dir ++ "/" ++ u ++ String "."%char t)
      with ((dir ++ "/" ++ u) ++ String "."%char t)
      by (rewrite !string_app_assoc; reflexivity).
    replace (Z.to_nat _) with (String.length (dir ++ "/" ++ u)).
    2:{ rewrite !string_length_app, Hlen, string_length_chars. simpl. lia. }
    replace (Z.to_nat _) with (String.length (String "."%char t)).
    2:{ simpl. rewrite string_length_chars. lia. }
    apply substring_after. }
  eqb_cases; try lia; cbn [orb andb]; exact Hsub.
Qed.

Lemma lower_ascii_plain (c : ascii) : plain_char (lower_ascii c) -> plain_char c.
Proof. intros [Hd Hs]. split; intros ->; [apply Hd|apply Hs]; reflexivity. Qed.

Lemma toLowerCase_cons (c : ascii) (s : string) :
  toLowerCase (String c s)
  = String (lower_ascii c) (toLowerCase s)
  \/ exists s', String c s = KELVIN_SIGN ++ s'
                /\ toLowerCase (String c s) = String "k"%char (toLowerCase s').
Proof.
  destruct s as [|c1 [|c2 s']]; [left; reflexivity | left; reflexivity |].
  cbn [toLowerCase].
  case_bool_decide as H0; cbn [andb]; [| left; reflexivity].
  case_bool_decide as H1; cbn [andb]; [| left; reflexivity].
  case_bool_decide as H2; cbn [andb]; [| left; reflexivity].
  right. exists s'. subst. split; reflexivity.
Qed.

Lemma toLowerCase_plain_bounded (n : nat) : forall s : string,
  (String.length s <= n)%nat ->
  Forall plain_char (list_ascii_of_string (toLowerCase s)) ->
  Forall plain_char (list_ascii_of_string s).
Proof.
  induction n as [|n IH]; intros [|c s] Hlen H; try (constructor; fail).
  { simpl in Hlen. lia. }
  destruct (toLowerCase_cons c s) as [E | (s' & Es & E)]; rewrite E in H.
  - cbn [list_ascii_of_string] in *. inversion H; subst.
    constructor; [apply lower_ascii_plain; assumption |].
    apply IH; [simpl in Hlen; lia | assumption].
  - rewrite Es. unfold KELVIN_SIGN.
    change (String "226" (String "132" (String "170" EmptyString)) ++ s')
      with (String "226" (String "132" (String "170" s'))).
    cbn [list_ascii_of_string] in *. inversion H; subst.
    repeat (constructor; [split; discriminate |]).
    apply IH; [| assumption].
    apply (f_equal String.length) in Es. unfold KELVIN_SIGN in Es.
    change (String "226" (String "132" (String "170" EmptyString)) ++ s')
      with (String "226" (String "132" (String "170" s'))) in Es.
    simpl in Es, Hlen. lia.
Qed.

Lemma toLowerCase_plain (s : string) :
  Forall plain_char (list_ascii_of_string (toLowerCase s)) ->
  Forall plain_char (list_ascii_of_string s).
Proof. apply (toLowerCase_plain_bounded (String.length s)). lia. Qed.

Lemma lower_ascii_dot (c : ascii) : lower_ascii c = "."%char -> c = "."%char.
Proof.
  destruct c as [b0 b1 b2 b3 b4 b5 b6 b7].
  destruct b0, b1, b2, b3, b4, b5, b6, b7; intros H; cbv in H;
    first [discriminate H|reflexivity].
Qed.

(** An extension that the upload filter allows is a dot followed by
    characters other than the dot and the slash, in any letter case. *)
Lemma allowed_shape (e : string) :
  toLowerCase e ∈ Upload.allowedExtensions ->
  exists t, e = String "."%char t /\ Forall plain_char (list_ascii_of_string t).
Proof.
  intros H. destruct e as [|c0 t].
  { exfalso. simpl in H. unfold Upload.allowedExtensions in H.
    repeat (apply elem_of_cons in H as [H|H]; [discriminate|]).
    apply elem_of_nil in H. exact H. }
  exists t. unfold Upload.allowedExtensions in H.
  destruct (toLowerCase_cons c0 t) as [E | (s' & _ & E)]; rewrite E in H.
  2:{ exfalso.
      repeat (apply elem_of_cons in H as [H|H]; [discriminate|]).
      apply elem_of_nil in H. exact H. }
  assert (Hc : lower_ascii c0 = "."%char
               /\ Forall plain_char (list_ascii_of_string (toLowerCase t))).
  { repeat (apply elem_of_cons in H as [H|H];
            [injection H as Hc0 Ht; rewrite Ht; split; [exact Hc0|];
             repeat constructor; discriminate|]).
    apply elem_of_nil in H. destruct H. }
  destruct Hc as [Hc0 Ht]. rewrite (lower_ascii_dot c0 Hc0).
  split; [reflexivity|apply toLowerCase_plain; exact Ht].
Qed.

Lemma allowed_supported (ext : string) :
  ext ∈ Upload.allowedExtensions ->
  exists mime, (ext, mime) ∈ SUPPORTED_FORMATS.
Proof.
  unfold Upload.allowedExtensions, SUPPORTED_FORMATS. intros H.
  repeat (apply elem_of_cons in H as [->|H];
          [eexists; repeat (first [left; reflexivity|right])|]).
  apply elem_of_nil in H. destruct H.
Qed.

(** ** What a computation returns, what it throws, whether it settles *)

(** [analyzeVideo] awaits nothing that can stay pending: it settles. *)
Lemma Remote_analyzeVideo_settles (cfg : Config) (env : Env) (p : string)
      (prompt : option string) (w : World) :
  fst (Remote.analyzeVideo cfg env p prompt w) <> Pending.
Proof.
  rewrite Remote_analyzeVideo_eq, validateVideoFile_eq.
  destruct (negb (truthy (GOOGLE_API_KEY cfg))); [discriminate|].
  destruct (fs w !! p) as [f|]; [|discriminate].
  destruct (assoc _ SUPPORTED_FORMATS) as [mime|]; [|discriminate].
  destruct (MAX_FILE_SIZE <? size f); [discriminate|].
  destruct (analysis_tail_settles env defaultPrompts prompt
              {| data := f; mimeType := mime |} w) as (r & w' & ->).
  discriminate.
Qed.




Lemma yields_pending {A} (Q : A -> Prop) (P : Error -> Prop) (N : Prop) :
  N -> yields Q P N (@pending A).
Proof. intros H w. exact H. Qed.
























(** ** Which files a handler touches *)

Lemma touches_ret (p : string) {A} (a : A) : touches_only p (ret a).
Proof. intros w q _. reflexivity. Qed.

Lemma touches_throw (p : string) {A} (e : Error) : touches_only p (@throw A e).
Proof. intros w q _. reflexivity. Qed.

Lemma touches_bind (p : string) {A B} (m : M A) (k : A -> M B) :
  touches_only p m -> (forall a, touches_only p (k a)) -> touches_only p (bind m k).
Proof.
  intros Hm Hk w q Hq. unfold bind. specialize (Hm w q Hq).
  destruct (m w) as [[a|e|] w1]; simpl in *; [|exact Hm|exact Hm].
  rewrite (Hk a w1 q Hq). exact Hm.
Qed.

Lemma touches_pending (p : string) {A} : touches_only p (@pending A).
Proof. intros w q _. reflexivity. Qed.

Lemma touches_try_catch (p : string) {A} (m : M A) (h : Error -> M A) :
  touches_only p m -> (forall e, touches_only p (h e)) ->
  touches_only p (try_catch m h).
Proof.
  intros Hm Hh w q Hq. unfold try_catch. specialize (Hm w q Hq).
  destruct (m w) as [[a|e|] w1]; simpl in *; [exact Hm| |exact Hm].
  rewrite (Hh e w1 q Hq). exact Hm.
Qed.

Lemma touches_existsSync (p q : string) : touches_only p (existsSync q).
Proof. intros w r _. reflexivity. Qed.

Lemma touches_statSync (p q : string) : touches_only p (statSync q).
Proof. intros w r _. unfold statSync. destruct (fs w !! q); reflexivity. Qed.

Lemma touches_readFileSync (p q : string) : touches_only p (readFileSync q).
Proof. intros w r _. unfold readFileSync. destruct (fs w !! q); reflexivity. Qed.

Lemma touches_unlinkSync (p : string) : touches_only p (unlinkSync p).
Proof.
  intros w r Hr. unfold unlinkSync. destruct (fs w !! p); [|reflexivity].
  simpl. apply lookup_delete_ne. congruence.
Qed.

Lemma touches_writeFile (p : string) (f : file) : touches_only p (writeFile p f).
Proof. intros w r Hr. simpl. apply lookup_insert_ne. congruence. Qed.

Lemma touches_fresh_uuid (p : string) (env : Env) : touches_only p (fresh_uuid env).
Proof. intros w r _. reflexivity. Qed.

Lemma touches_generateContent (p : string) (env : Env) (q : string)
      (part : inlineData) :
  touches_only p (generateContent env q part).
Proof.
  intros w r _. unfold generateContent.
  destruct (generateContent_oracle env _ _); reflexivity.
Qed.

Create HintDb touches.
#[local] Hint Resolve touches_ret touches_throw touches_pending touches_existsSync
  touches_statSync touches_readFileSync touches_unlinkSync touches_writeFile
  touches_fresh_uuid touches_generateContent : touches.

Ltac touches_step :=
  first
    [ solve [auto with touches]
    | apply touches_bind; [|intros ?]
    | apply touches_try_catch; [|intros ?]
    | progress cbv zeta
    | match goal with
      | |- touches_only _ (if ?b then _ else _) => destruct b
      | |- touches_only _ (match ?x with _ => _ end) => destruct x
      end ].

Lemma touches_promptLoop (p : string) (env : Env) (part : inlineData)
      (ps : list string) :
  forall acc, touches_only p (promptLoop env part ps acc).
Proof. induction ps as [|q ps IH]; intros acc; simpl; repeat touches_step. Qed.

Lemma touches_unlinkIfExists (p : string) : touches_only p (unlinkIfExists p).
Proof. unfold unlinkIfExists. repeat touches_step. Qed.

Lemma touches_tempFile (p : string) (env : Env) : touches_only p (tempFile env).
Proof. unfold tempFile. repeat touches_step. Qed.

Lemma touches_downloadFile (env : Env) (url p : string) :
  touches_only p (downloadFile env url p).
Proof. unfold downloadFile. repeat touches_step. Qed.

Lemma touches_validateVideoFile (p q : string) :
  touches_only p (Remote.validateVideoFile q).
Proof. unfold Remote.validateVideoFile. repeat touches_step. Qed.

#[local] Hint Resolve touches_promptLoop touches_unlinkIfExists touches_tempFile
  touches_downloadFile touches_validateVideoFile : touches.

Lemma touches_analyzeVideo (p : string) (cfg : Config) (env : Env) (q : string)
      (prompt : option string) :
  touches_only p (Remote.analyzeVideo cfg env q prompt).
Proof. unfold Remote.analyzeVideo, fileToGenerativePart. repeat touches_step. Qed.

#[local] Hint Resolve touches_analyzeVideo : touches.

(** A handler that touches only [p] and has removed [p] when it is done
    leaves the files as they were, when [p] was not there before. *)
Lemma restores_fs (p : string) (w w' : World) :
  (forall q, q <> p -> fs w' !! q = fs w !! q) ->
  fs w !! p = None -> fs w' !! p = None ->
  fs w' = fs w.
Proof.
  intros Hother Hbefore Hafter. apply map_eq. intros q.
  destruct (decide (q = p)) as [->|Hq]; [congruence|auto].
Qed.

(** ** The upload route *)

Lemma upload_single_accepted (env : Env) (f : UploadedFile) (w : World) :
  Upload.fileFilter f = true ->
  size (content f) <= MAX_FILE_SIZE ->
  Upload.upload_single env (Some f) w
  = (Return (Some (TEMP_DIR ++ "/" ++ uuidv4 env (uuids w)
                   ++ extname (originalname f))),
     set_fs (insert (TEMP_DIR ++ "/" ++ uuidv4 env (uuids w)
                     ++ extname (originalname f)) (content f))
       {| fs := fs w; calls := calls w; outbox := outbox w;
          uuids := S (uuids w); clock := clock w |}).
Proof.
  intros Hfilter Hsize. unfold Upload.upload_single. rewrite Hfilter. cbn [negb].
  unfold bind at 1. unfold Upload.filename, bind at 1, fresh_uuid, ret at 1.
  destruct (MAX_FILE_SIZE <? size (content f)) eqn:Hlt;
    [apply N.ltb_lt in Hlt; lia|].
  reflexivity.
Qed.

(** Every upload that the filter and the size limit of multer let through
    is stored under a name that [validateVideoFile] accepts (whatever the
    letter case of the original extension), with the MIME type of the
    original extension. *)
Theorem upload_accepted_then_valid (env : Env) (f : UploadedFile) (w : World) :
  uuid_shaped (uuidv4 env (uuids w)) ->
  Upload.fileFilter f = true ->
  size (content f) <= MAX_FILE_SIZE ->
  exists path w1 mime,
    Upload.upload_single env (Some f) w = (Return (Some path), w1)
    /\ fs w1 !! path = Some (content f)
    /\ extname path = extname (originalname f)
    /\ (toLowerCase (extname (originalname f)), mime) ∈ SUPPORTED_FORMATS
    /\ Remote.validateVideoFile path w1 = (Return mime, w1).
Proof.
  intros Huuid Hfilter Hsize.
  pose proof Hfilter as Hallowed. unfold Upload.fileFilter in Hallowed.
  apply bool_decide_eq_true_1 in Hallowed.
  destruct (allowed_shape _ Hallowed) as (t & Hext & Ht).
  destruct (allowed_supported _ Hallowed) as (mime & Hmime).
  eexists. eexists. exists mime.
  split; [apply upload_single_accepted; assumption|].
  assert (Hname : extname (TEMP_DIR ++ "/" ++ uuidv4 env (uuids w)
                           ++ extname (originalname f))
                  = extname (originalname f)).
  { rewrite Hext. apply extname_stored; assumption. }
  split; [apply lookup_insert_eq|]. split; [exact Hname|]. split; [exact Hmime|].
  rewrite validateVideoFile_eq. cbn [fs set_fs].
  rewrite lookup_insert_eq, Hname, (assoc_supported _ _ Hmime).
  destruct (MAX_FILE_SIZE <? size (content f)) eqn:Hlt;
    [apply N.ltb_lt in Hlt; lia|reflexivity].
Qed.

Lemma upload_accepted_then_valid_witness :
  exists path w1 mime,
    Upload.upload_single sample_env (Some holiday) sample_world
    = (Return (Some path), w1)
    /\ extname path = ".MP4"
    /\ Remote.validateVideoFile path w1 = (Return mime, w1).
Proof.
  destruct (upload_accepted_then_valid sample_env holiday sample_world
              ltac:(split; [discriminate|vm_compute; repeat constructor; discriminate])
              ltac:(vm_compute; reflexivity)
              ltac:(vm_compute; discriminate))
    as (path & w1 & mime & Hup & _ & Hext & _ & Hvalid).
  exists path, w1, mime. split; [exact Hup|]. split; [exact Hext|exact Hvalid].
Defined.




(** An upload that the filter or the size limit refuses is answered by the
    error-handling middleware (status 500, the reason only in development)
    before anything is analysed: no provider call is made and no file is
    left; a request without a file part is answered 400. *)
Theorem upload_refused_before_analysis (cfg : Config) (env : Env)
        (development : bool) (req : Request) (w : World) :
  granted (Remote.authenticate cfg env req) = true ->
  Upload.api_analyze_file cfg env development req None w
  = (Return (Reply {| status := 400; body := JsonError "No video file provided" |}), w)
  /\ forall f,
      (Upload.fileFilter f = false ->
       Upload.api_analyze_file cfg env development req (Some f) w
       = (Return (InternalServerError
                    (if development
                     then Some "Unsupported file format. Allowed: .mp4, .webm, .mov, .avi, .mkv"
                     else None)), w))
      /\ (Upload.fileFilter f = true ->
          MAX_FILE_SIZE < size (content f) ->
          fst (Upload.api_analyze_file cfg env development req (Some f) w)
          = Return (InternalServerError
                      (if development then Some "File too large" else None))
          /\ fs (snd (Upload.api_analyze_file cfg env development req (Some f) w))
             = fs w
          /\ calls (snd (Upload.api_analyze_file cfg env development req (Some f) w))
             = calls w).
Proof.
  intros Hauth. unfold Upload.api_analyze_file.
  destruct (Remote.authenticate cfg env req); [|discriminate].
  split; [reflexivity|]. intros f. split.
  - intros Hfilter. unfold Upload.upload_single. rewrite Hfilter.
    destruct development; reflexivity.
  - intros Hfilter Hsize. apply N.ltb_lt in Hsize.
    unfold Upload.upload_single. rewrite Hfilter. cbn [negb].
    unfold bind at 1. unfold Upload.filename, bind at 1, fresh_uuid, ret at 1.
    rewrite Hsize. destruct development; repeat split.
Qed.

Lemma upload_refused_before_analysis_witness :
  Upload.api_analyze_file secured sample_env true
    (with_credentials (Some "s3cret") None None)
    (Some {| originalname := "notes.txt"; content := clip |}) sample_world
  = (Return (InternalServerError
               (Some "Unsupported file format. Allowed: .mp4, .webm, .mov, .avi, .mkv")),
     sample_world).
Proof.
  apply (proj2 (upload_refused_before_analysis secured sample_env true
                  (with_credentials (Some "s3cret") None None) sample_world
                  ltac:(reflexivity))
           {| originalname := "notes.txt"; content := clip |}).
  vm_compute. reflexivity.
Defined.

(** ** The URL endpoints leave the files as they found them *)

Lemma keeps_fs_touches (p : string) {A} (m : M A) : keeps_fs m -> touches_only p m.
Proof. intros H w q _. rewrite H. reflexivity. Qed.

Lemma try_catch_ret_world {A} (m : M A) (f : Error -> A) (w : World) :
  snd (try_catch m (fun e => ret (f e)) w) = snd (m w).
Proof. unfold try_catch, ret. destruct (m w) as [[a|e|] w1]; reflexivity. Qed.

(** A [try] settles only if its body does. *)
Lemma try_catch_settles_inv {A} (m : M A) (h : Error -> M A) (w : World) :
  fst (try_catch m h w) <> Pending -> fst (m w) <> Pending.
Proof.
  unfold try_catch. destruct (m w) as [[a|e|] w1]; simpl; [discriminate|discriminate|].
  intros H. exact H.
Qed.

Lemma leaves_files_keep (env : Env) (w : World) {A} (r : outcome A * World) :
  fs (snd r) = fs w -> leaves_files env w r.
Proof. intros H. split; [intros q _; rewrite H; reflexivity | intros _; exact H]. Qed.

Lemma leaves_files_wrap (env : Env) (w : World) {A B}
      (r : outcome A * World) (r' : outcome B * World) :
  fs (snd r') = fs (snd r) -> (fst r' <> Pending -> fst r <> Pending) ->
  leaves_files env w r -> leaves_files env w r'.
Proof.
  intros Hsnd Hfst [Hother Hdone]. split.
  - intros q Hq. rewrite Hsnd. apply Hother, Hq.
  - intros Hs. rewrite Hsnd. apply Hdone, Hfst, Hs.
Qed.

(** The block shared by the URL handlers: allocate the temp path, run the
    body inside [try], unlink in [catch]. *)
Lemma url_block_restores {A} (env : Env) (w : World)
      (body : string -> M A) (h : string -> Error -> M A) :
  (forall p, touches_only p (body p)) ->
  (forall p, removes p (body p)) ->
  (forall p e, keeps_fs (h p e)) ->
  fs w !! temp_path env w = None ->
  leaves_files env w
    ((do tempFilePath <- tempFile env;
      try_catch (body tempFilePath)
        (fun error => exec unlinkIfExists tempFilePath; h tempFilePath error)) w).
Proof.
  intros Htouch Hrem Hh Hfresh. unfold bind at 1. rewrite tempFile_eq.
  assert (Hother : forall q, q <> temp_path env w ->
            fs (snd (try_catch (body (temp_path env w))
                       (fun error => exec unlinkIfExists (temp_path env w);
                                     h (temp_path env w) error)
                       {| fs := fs w; calls := calls w; outbox := outbox w;
                          uuids := S (uuids w); clock := clock w |})) !! q
            = fs w !! q).
  { intros q Hq.
    assert (Ht : touches_only (temp_path env w)
              (try_catch (body (temp_path env w))
                 (fun error => exec unlinkIfExists (temp_path env w);
                               h (temp_path env w) error))).
    { apply touches_try_catch; [apply Htouch|]. intros e.
      apply touches_bind; [apply touches_unlinkIfExists|].
      intros _. apply keeps_fs_touches, Hh. }
    rewrite (Ht _ q Hq). reflexivity. }
  split; [exact Hother|]. intros Hs.
  apply (restores_fs (temp_path env w)); [exact Hother|exact Hfresh|].
  apply try_cleanup; [apply Hrem| |exact Hs]. intros e. apply Hh.
Qed.

Lemma analyzeVideo_keeps_fs (cfg : Config) (env : Env) (p : string)
      (prompt : option string) (w : World) :
  fs (snd (Remote.analyzeVideo cfg env p prompt w)) = fs w.
Proof.
  apply map_eq. intros q.
  destruct (decide (q = p ++ "x")) as [->|Hq].
  - apply (touches_analyzeVideo p cfg env p prompt w).
    intros H. apply (f_equal String.length) in H.
    rewrite string_length_app in H. simpl in H. lia.
  - apply (touches_analyzeVideo (p ++ "x") cfg env p prompt w). exact Hq.
Qed.

Lemma call_analyze_video_url_restores (cfg : Config) (env : Env)
      (args : option ToolArgs) (w : World) :
  fs w !! temp_path env w = None ->
  leaves_files env w (Remote.call_analyze_video_url cfg env args w).
Proof.
  intros Hfresh. unfold Remote.call_analyze_video_url.
  destruct (args ≫= video_url) as [url|]; [|apply leaves_files_keep; reflexivity].
  destruct (negb (truthy (Some url))); [apply leaves_files_keep; reflexivity|].
  apply (url_block_restores env w
           (fun tempFilePath =>
              exec downloadFile env url tempFilePath;
              do result <- Remote.analyzeVideo cfg env tempFilePath
                             (args ≫= analysis_prompt);
              exec unlinkIfExists tempFilePath;
              ret (json (JsonContent result)))
           (fun _ error => throw error)); [| | |exact Hfresh].
  - intros p. repeat touches_step.
  - intros p. apply removes_bind. intros _. apply removes_bind. intros result.
    apply removes_then; [apply removes_unlinkIfExists|].
    intros _. apply keeps_fs_ret.
  - intros p e. apply keeps_fs_throw.
Qed.

Lemma call_tool_restores (cfg : Config) (env : Env) (toolName : option string)
      (args : option ToolArgs) (w : World) :
  fs w !! temp_path env w = None ->
  leaves_files env w (Remote.call_tool cfg env toolName args w).
Proof.
  intros Hfresh. unfold Remote.call_tool.
  destruct (bool_decide (toolName = Some "analyze_video_file")).
  { apply leaves_files_keep. unfold Remote.call_analyze_video_file.
    destruct (args ≫= file_path) as [p|]; [|reflexivity].
    destruct (negb (truthy (Some p))); [reflexivity|].
    unfold bind. pose proof (analyzeVideo_keeps_fs cfg env p (args ≫= analysis_prompt) w) as H.
    destruct (Remote.analyzeVideo cfg env p _ w) as [[r|e|] w1]; exact H. }
  destruct (bool_decide (toolName = Some "analyze_video_url"));
    [apply call_analyze_video_url_restores; exact Hfresh
    |apply leaves_files_keep; reflexivity].
Qed.

Lemma api_analyze_url_restores (cfg : Config) (env : Env) (req : Request)
      (w : World) :
  fs w !! temp_path env w = None ->
  leaves_files env w (Remote.api_analyze_url cfg env req w).
Proof.
  intros Hfresh. unfold Remote.api_analyze_url, Remote.behind_authenticate.
  destruct (Remote.authenticate cfg env req); [|apply leaves_files_keep; reflexivity].
  destruct (body_video_url req) as [url|]; [|apply leaves_files_keep; reflexivity].
  destruct (negb (truthy (Some url))); [apply leaves_files_keep; reflexivity|].
  apply (url_block_restores env w
           (fun tempFilePath =>
              exec downloadFile env url tempFilePath;
              do result <- Remote.analyzeVideo cfg env tempFilePath
                             (body_analysis_prompt req);
              exec unlinkIfExists tempFilePath;
              ret (json (JsonResult result)))
           (fun _ error =>
              ret {| status := 500; body := JsonFailure (message error) |}));
    [| | |exact Hfresh].
  - intros p. repeat touches_step.
  - intros p. apply removes_bind. intros _. apply removes_bind. intros result.
    apply removes_then; [apply removes_unlinkIfExists|].
    intros _. apply keeps_fs_ret.
  - intros p e. apply keeps_fs_ret.
Qed.

Lemma mcp_post_restores (cfg : Config) (env : Env) (req : Request) (w : World) :
  fs w !! temp_path env w = None ->
  leaves_files env w (Remote.mcp_post cfg env req w).
Proof.
  intros Hfresh. unfold Remote.mcp_post, Remote.behind_authenticate.
  destruct (Remote.authenticate cfg env req); [|apply leaves_files_keep; reflexivity].
  destruct (bool_decide (body_method req = Some "tools/list"));
    [apply leaves_files_keep; reflexivity|].
  destruct (bool_decide (body_method req = Some "tools/call"));
    [|apply leaves_files_keep; reflexivity].
  eapply leaves_files_wrap;
    [rewrite try_catch_ret_world; reflexivity | apply try_catch_settles_inv
    | apply call_tool_restores; exact Hfresh].
Qed.

Lemma api_mcp_call_restores (cfg : Config) (env : Env) (req : Request)
      (w : World) :
  fs w !! temp_path env w = None ->
  leaves_files env w (Remote.api_mcp_call cfg env req w).
Proof.
  intros Hfresh. unfold Remote.api_mcp_call, Remote.behind_authenticate.
  destruct (Remote.authenticate cfg env req); [|apply leaves_files_keep; reflexivity].
  destruct (negb (truthy (body_tool req))); [apply leaves_files_keep; reflexivity|].
  eapply leaves_files_wrap;
    [rewrite try_catch_ret_world; reflexivity | apply try_catch_settles_inv
    | apply call_tool_restores; exact Hfresh].
Qed.

Lemma ws_tool_result_restores (cfg : Config) (env : Env) (tool : JsVal)
      (args : Remote.WsArgs) (w : World) :
  fs w !! temp_path env w = None ->
  leaves_files env w (Remote.ws_tool_result cfg env tool args w).
Proof.
  intros Hfresh. unfold Remote.ws_tool_result.
  destruct (is_str tool "analyze_video_file").
  { apply leaves_files_keep. destruct args as [|a]; [reflexivity|].
    unfold Remote.analyzeVideoAt. destruct (file_path a) as [p|].
    - apply analyzeVideo_keeps_fs.
    - destruct (negb (truthy (GOOGLE_API_KEY cfg))); reflexivity. }
  destruct (is_str tool "analyze_video_url"); [|apply leaves_files_keep; reflexivity].
  apply (url_block_restores env w
           (fun tempFilePath =>
              match args with
              | Remote.ArgsMissing =>
                  throw (OtherError "Cannot read properties of undefined (reading 'video_url')")
              | Remote.ArgsObject a =>
                  exec Remote.downloadFileAt env (video_url a) tempFilePath;
                  do result <- Remote.analyzeVideo cfg env tempFilePath (analysis_prompt a);
                  exec unlinkIfExists tempFilePath;
                  ret result
              end)
           (fun _ error => throw error)); [| | |exact Hfresh].
  - intros p. unfold Remote.downloadFileAt. repeat touches_step.
  - intros p. destruct args as [|a]; [apply removes_throw|].
    apply removes_bind. intros _. apply removes_bind. intros result.
    apply removes_then; [apply removes_unlinkIfExists|].
    intros _. apply keeps_fs_ret.
  - intros p e. apply keeps_fs_throw.
Qed.

Lemma ws_on_message_restores (cfg : Config) (env : Env) (m : Remote.Inbound)
      (w : World) :
  fs w !! temp_path env w = None ->
  leaves_files env w (Remote.ws_on_message cfg env m w).
Proof.
  intros Hfresh. destruct m as [syntaxError|[|type tool args id]];
    [apply leaves_files_keep; reflexivity|apply leaves_files_keep; reflexivity|].
  unfold Remote.ws_on_message.
  destruct (is_str type "list_tools"); [apply leaves_files_keep; reflexivity|].
  destruct (is_str type "call_tool").
  2:{ apply leaves_files_keep. destruct (is_str type "ping"); reflexivity. }
  apply (leaves_files_wrap env w (Remote.ws_tool_result cfg env tool args w));
    [| |apply ws_tool_result_restores; exact Hfresh].
  - unfold try_catch at 1. unfold Remote.ws_call_tool, try_catch, bind.
    destruct (Remote.ws_tool_result cfg env tool args w) as [[r|e|] w1]; reflexivity.
  - unfold try_catch at 1. unfold Remote.ws_call_tool, try_catch, bind.
    destruct (Remote.ws_tool_result cfg env tool args w) as [[r|e|] w1]; simpl;
      [discriminate|discriminate|intros H _; apply H; reflexivity].
Qed.

Lemma touches_SSE_analyzeVideo (p : string) (key : option string) (env : Env)
      (q : string) (prompt : option string) :
  touches_only p (SSE.analyzeVideo key env q prompt).
Proof.
  unfold SSE.analyzeVideo, SSE.requireGoogleApiKey, fileToGenerativePart.
  repeat touches_step.
Qed.

Lemma SSE_callTool_restores (key : option string) (env : Env) (toolName : string)
      (args : ToolArgs) (w : World) :
  fs w !! temp_path env w = None ->
  leaves_files env w (SSE.callTool key env toolName args w).
Proof.
  intros Hfresh. unfold SSE.callTool.
  assert (Hcatch : forall (m : M Content) w0,
             snd (try_catch m
                    (fun error =>
                       match error with
                       | McpError _ _ => throw error
                       | _ => throw (McpError InternalError (message error))
                       end) w0) = snd (m w0)).
  { intros m w0. unfold try_catch.
    destruct (m w0) as [[a|e|] w1]; [reflexivity| |reflexivity].
    destruct e; reflexivity. }
  eapply leaves_files_wrap;
    [rewrite Hcatch; reflexivity | apply try_catch_settles_inv |].
  destruct (bool_decide (toolName = "analyze_video_file")).
  { apply leaves_files_keep. unfold SSE.call_analyze_video_file.
    destruct (file_path args) as [p|]; [|reflexivity].
    destruct (negb (truthy (Some p))); [reflexivity|].
    apply map_eq. intros q.
    destruct (decide (q = p ++ "x")) as [->|Hq].
    - assert (Ht : touches_only p
                (do found <- existsSync p;
                 if negb found
                 then throw (McpError InvalidRequest ("File not found: " ++ p))
                 else
                   do fileResult <- SSE.analyzeVideo key env p (analysis_prompt args);
                   ret (ContentResult fileResult))).
      { pose proof (touches_SSE_analyzeVideo p key env p (analysis_prompt args)).
        repeat touches_step. }
      apply Ht. intros H. apply (f_equal String.length) in H.
      rewrite string_length_app in H. simpl in H. lia.
    - assert (Ht : touches_only (p ++ "x")
                (do found <- existsSync p;
                 if negb found
                 then throw (McpError InvalidRequest ("File not found: " ++ p))
                 else
                   do fileResult <- SSE.analyzeVideo key env p (analysis_prompt args);
                   ret (ContentResult fileResult))).
      { pose proof (touches_SSE_analyzeVideo (p ++ "x") key env p (analysis_prompt args)).
        repeat touches_step. }
      apply Ht. exact Hq. }
  destruct (bool_decide (toolName = "analyze_video_url")).
  2:{ apply leaves_files_keep.
      destruct (bool_decide (toolName = "get_server_status")); reflexivity. }
  unfold SSE.call_analyze_video_url.
  destruct (video_url args) as [url|]; [|apply leaves_files_keep; reflexivity].
  destruct (negb (truthy (Some url))); [apply leaves_files_keep; reflexivity|].
  apply (url_block_restores env w
           (fun tempFilePath =>
              exec downloadFile env url tempFilePath;
              do urlResult <- SSE.analyzeVideo key env tempFilePath (analysis_prompt args);
              exec unlinkSync tempFilePath;
              ret (ContentResult urlResult))
           (fun _ error => throw error)); [| | |exact Hfresh].
  - intros p.
    pose proof (fun q => touches_SSE_analyzeVideo p key env q (analysis_prompt args)).
    repeat touches_step.
  - intros p. apply removes_bind. intros _. apply removes_bind. intros result.
    apply removes_then; [apply removes_unlinkSync|].
    intros _. apply keeps_fs_ret.
  - intros p e. apply keeps_fs_throw.
Qed.

(** Every tool and URL handler of remote-server.js (REST, MCP over HTTP,
    WebSocket) and the tool handler of mcp-server.js, once it is done
    (it answered or threw), has left the files on disk exactly as it found
    them, whatever the download, the analysis and the provider did: the
    temp file is the only file it writes, and the handler removes it on
    every exit.  A handler whose download never settles never exits: it
    has then changed no file but its temp file, which stays. *)
Theorem handlers_restore_files (cfg : Config) (env : Env) (req : Request)
        (m : Remote.Inbound) (toolName : string) (args : ToolArgs) (w : World) :
  fs w !! temp_path env w = None ->
  let done {A} (r : outcome A * World) :=
    (fst r <> Pending -> fs (snd r) = fs w)
    /\ (forall q, q <> temp_path env w -> fs (snd r) !! q = fs w !! q) in
  done (Remote.api_analyze_url cfg env req w)
  /\ done (Remote.mcp_post cfg env req w)
  /\ done (Remote.api_mcp_call cfg env req w)
  /\ done (Remote.ws_on_message cfg env m w)
  /\ done (SSE.callTool (GOOGLE_API_KEY cfg) env toolName args w).
Proof.
  intros Hfresh done.
  assert (Hd : forall A (r : outcome A * World), leaves_files env w r -> done A r)
    by (intros A r [H1 H2]; split; assumption).
  split; [apply Hd, api_analyze_url_restores; exact Hfresh|].
  split; [apply Hd, mcp_post_restores; exact Hfresh|].
  split; [apply Hd, api_mcp_call_restores; exact Hfresh|].
  split; [apply Hd, ws_on_message_restores; exact Hfresh|].
  apply Hd, SSE_callTool_restores. exact Hfresh.
Qed.

Lemma handlers_restore_files_witness :
  fs (snd (Remote.api_analyze_url secured sample_env
             (url_request "https://cdn.example/broken.mp4") sample_world))
  = sample_fs.
Proof.
  apply (proj1 (proj1 (handlers_restore_files secured sample_env
                         (url_request "https://cdn.example/broken.mp4")
                         (Remote.Unparseable "") "" (MkArgs None None None)
                         sample_world ltac:(vm_compute; reflexivity)))).
  vm_compute. discriminate.
Defined.

(** A download that stalls: the REST handler does not answer, and the part
    of the body that arrived stays in the temp directory. *)
Example stalled_download_leaves_partial_file :
  let r := Remote.api_analyze_url secured stalling_env
             (url_request "https://cdn.example/stalled.mp4") sample_world in
  fst r = Pending
  /\ fs (snd r) !! temp_path stalling_env sample_world = Some {| size := 4096 |}
  /\ calls (snd r) = [].
Proof. vm_compute. repeat split. Qed.

(** ** One execution behind every envelope *)

Lemma url_block_eq (cfg : Config) (env : Env) (url : string)
      (prompt : option string) {A} (ok : AnalysisResult -> A)
      (ko : Error -> M A) (w : World) :
  (do tempFilePath <- tempFile env;
   try_catch
     (exec downloadFile env url tempFilePath;
      do result <- Remote.analyzeVideo cfg env tempFilePath prompt;
      exec unlinkIfExists tempFilePath;
      ret (ok result))
     (fun error => exec unlinkIfExists tempFilePath; ko error)) w
  = match url_outcome cfg env url prompt w with
    | (Return r, w') => (Return (ok r), w')
    | (Throw e, w') => ko e w'
    | (Pending, w') => (Pending, w')
    end.
Proof.
  unfold bind at 1. rewrite tempFile_eq. fold (drew_uuid w).
  unfold url_outcome, try_catch, bind.
  destruct (downloadFile env url (temp_path env w) (drew_uuid w)) as [[p|e|] w1].
  - destruct (Remote.analyzeVideo cfg env (temp_path env w) prompt w1) as [[r|e|] w2];
      rewrite ?unlinkIfExists_eq; reflexivity.
  - rewrite unlinkIfExists_eq. reflexivity.
  - reflexivity.
Qed.

(** The download stays pending exactly on a host that does not let it
    settle, and so does the whole operation: the analysis always settles. *)
Lemma downloadFile_pending_iff (env : Env) (url p : string) (w : World) :
  fst (downloadFile env url p w) = Pending <-> download_settles env url = false.
Proof.
  unfold downloadFile, download_settles.
  destruct (fetch env url) as [msg | ok statusText body |];
    [split; discriminate | | split; reflexivity].
  destruct ok; cbn [negb]; [| split; discriminate].
  destruct body; [split; discriminate | split; discriminate | split; reflexivity].
Qed.

Lemma url_outcome_pending_iff (cfg : Config) (env : Env) (url : string)
      (prompt : option string) (w : World) :
  fst (url_outcome cfg env url prompt w) = Pending
  <-> download_settles env url = false.
Proof.
  rewrite <- (downloadFile_pending_iff env url (temp_path env w) (drew_uuid w)).
  unfold url_outcome.
  destruct (downloadFile env url (temp_path env w) (drew_uuid w)) as [[p|e|] w1];
    [| split; discriminate | split; reflexivity].
  pose proof (Remote_analyzeVideo_settles cfg env (temp_path env w) prompt w1) as Hs.
  destruct (Remote.analyzeVideo cfg env (temp_path env w) prompt w1) as [[r|e|] w2];
    [split; discriminate | split; discriminate |].
  exfalso. apply Hs. reflexivity.
Qed.

Lemma api_analyze_url_eq (cfg : Config) (env : Env) (req : Request)
      (url : string) (w : World) :
  granted (Remote.authenticate cfg env req) = true ->
  body_video_url req = Some url ->
  url <> "" ->
  Remote.api_analyze_url cfg env req w
  = match url_outcome cfg env url (body_analysis_prompt req) w with
    | (Return r, w') => (Return (json (JsonResult r)), w')
    | (Throw e, w') =>
        (Return {| status := 500; body := JsonFailure (message e) |}, w')
    | (Pending, w') => (Pending, w')
    end.
Proof.
  intros Hauth Hurl Hne.
  unfold Remote.api_analyze_url, Remote.behind_authenticate.
  destruct (Remote.authenticate cfg env req); [|discriminate].
  rewrite Hurl, (truthy_nonempty url Hne). cbn [negb].
  exact (url_block_eq cfg env url (body_analysis_prompt req)
           (fun r => json (JsonResult r))
           (fun e => ret {| status := 500; body := JsonFailure (message e) |}) w).
Qed.

Lemma call_analyze_video_url_eq (cfg : Config) (env : Env) (url : string)
      (prompt : option string) (w : World) :
  url <> "" ->
  Remote.call_analyze_video_url cfg env
    (Some {| file_path := None; video_url := Some url; analysis_prompt := prompt |}) w
  = match url_outcome cfg env url prompt w with
    | (Return r, w') => (Return (json (JsonContent r)), w')
    | (Throw e, w') => (Throw e, w')
    | (Pending, w') => (Pending, w')
    end.
Proof.
  intros Hne. unfold Remote.call_analyze_video_url.
  cbn [mbind option_bind video_url analysis_prompt].
  rewrite (truthy_nonempty url Hne). cbn [negb].
  exact (url_block_eq cfg env url prompt (fun r => json (JsonContent r))
           (fun e => throw e) w).
Qed.

Lemma ws_tool_result_url_eq (cfg : Config) (env : Env) (url : string)
      (prompt : option string) (w : World) :
  Remote.ws_tool_result cfg env (JString "analyze_video_url")
    (Remote.ArgsObject
       {| file_path := None; video_url := Some url; analysis_prompt := prompt |}) w
  = url_outcome cfg env url prompt w.
Proof.
  unfold Remote.ws_tool_result. cbn [is_str].
  rewrite bool_decide_eq_false_2 by discriminate.
  rewrite bool_decide_eq_true_2 by reflexivity.
  cbn [video_url analysis_prompt Remote.downloadFileAt].
  etransitivity;
    [exact (url_block_eq cfg env url prompt (fun r => r) (fun e => throw e) w)|].
  destruct (url_outcome cfg env url prompt w) as [[r|e|] w']; reflexivity.
Qed.

Lemma call_tool_url_eq (cfg : Config) (env : Env) (url : string)
      (prompt : option string) (w : World) :
  url <> "" ->
  try_catch
    (Remote.call_tool cfg env (Some "analyze_video_url")
       (Some {| file_path := None; video_url := Some url; analysis_prompt := prompt |}))
    (fun error => ret {| status := 500; body := JsonError (message error) |}) w
  = match url_outcome cfg env url prompt w with
    | (Return r, w') => (Return (json (JsonContent r)), w')
    | (Throw e, w') =>
        (Return {| status := 500; body := JsonError (message e) |}, w')
    | (Pending, w') => (Pending, w')
    end.
Proof.
  intros Hne. unfold try_catch, Remote.call_tool.
  rewrite bool_decide_eq_false_2 by discriminate.
  rewrite bool_decide_eq_true_2 by reflexivity.
  rewrite (call_analyze_video_url_eq cfg env url prompt w Hne).
  destruct (url_outcome cfg env url prompt w) as [[r|e|] w']; reflexivity.
Qed.

Lemma ws_on_message_url_eq (cfg : Config) (env : Env) (url : string)
      (prompt : option string) (id : JsVal) (w : World) :
  Remote.ws_on_message cfg env
    (Remote.Parsed
       (Remote.DValue (JString "call_tool") (JString "analyze_video_url")
          (Remote.ArgsObject
             {| file_path := None; video_url := Some url; analysis_prompt := prompt |})
          id)) w
  = match url_outcome cfg env url prompt w with
    | (Return r, w') => (Return tt, push_outbox (WsToolResult id r) w')
    | (Throw e, w') => (Return tt, push_outbox (WsError id (message e)) w')
    | (Pending, w') => (Pending, w')
    end.
Proof.
  unfold Remote.ws_on_message. cbn [is_str].
  rewrite bool_decide_eq_false_2 by discriminate.
  rewrite bool_decide_eq_true_2 by reflexivity.
  unfold try_catch at 1. unfold Remote.ws_call_tool, try_catch, bind.
  rewrite ws_tool_result_url_eq.
  destruct (url_outcome cfg env url prompt w) as [[r|e|] w']; reflexivity.
Qed.

(** For a request that passes [authenticate] and names a URL, the REST
    endpoint, POST /mcp, POST /api/mcp/call and the WebSocket [call_tool]
    run the same download, analysis and cleanup.  When the download
    settles they end in the same world (the WebSocket one having sent its
    reply) and answer the same result or the same error message, each in
    its own envelope; when it does not, the four stay pending alike, in the
    same world, and none of them answers. *)
Theorem transports_agree_on_url_analysis (cfg : Config) (env : Env)
        (req : Request) (url : string) (id : JsVal) (w : World) :
  granted (Remote.authenticate cfg env req) = true ->
  body_video_url req = Some url ->
  url <> "" ->
  (download_settles env url = true ->
   exists r w',
     Remote.api_analyze_url cfg env req w = (Return r, w')
     /\ Remote.mcp_post cfg env (as_tool_call req) w = (Return (mcp_envelope r), w')
     /\ Remote.api_mcp_call cfg env (as_tool_call req) w = (Return (mcp_envelope r), w')
     /\ exists reply,
         ws_envelope id r = Some reply
         /\ Remote.ws_on_message cfg env (as_ws_call req id) w
            = (Return tt, push_outbox reply w'))
  /\ (download_settles env url = false ->
      exists w',
        Remote.api_analyze_url cfg env req w = (Pending, w')
        /\ Remote.mcp_post cfg env (as_tool_call req) w = (Pending, w')
        /\ Remote.api_mcp_call cfg env (as_tool_call req) w = (Pending, w')
        /\ Remote.ws_on_message cfg env (as_ws_call req id) w = (Pending, w')).
Proof.
  intros Hauth Hurl Hne.
  rewrite (api_analyze_url_eq cfg env req url w Hauth Hurl Hne).
  assert (Hmcp : Remote.mcp_post cfg env (as_tool_call req) w
                 = match url_outcome cfg env url (body_analysis_prompt req) w with
                   | (Return r, w') => (Return (json (JsonContent r)), w')
                   | (Throw e, w') =>
                       (Return {| status := 500; body := JsonError (message e) |}, w')
                   | (Pending, w') => (Pending, w')
                   end).
  { unfold Remote.mcp_post, Remote.behind_authenticate.
    change (Remote.authenticate cfg env (as_tool_call req))
      with (Remote.authenticate cfg env req).
    destruct (Remote.authenticate cfg env req); [|discriminate].
    cbn [body_method params_name params_arguments as_tool_call].
    rewrite bool_decide_eq_false_2 by discriminate.
    rewrite bool_decide_eq_true_2 by reflexivity.
    rewrite Hurl. apply call_tool_url_eq. exact Hne. }
  assert (Hcall : Remote.api_mcp_call cfg env (as_tool_call req) w
                  = match url_outcome cfg env url (body_analysis_prompt req) w with
                    | (Return r, w') => (Return (json (JsonContent r)), w')
                    | (Throw e, w') =>
                        (Return {| status := 500; body := JsonError (message e) |}, w')
                    | (Pending, w') => (Pending, w')
                    end).
  { unfold Remote.api_mcp_call, Remote.behind_authenticate.
    change (Remote.authenticate cfg env (as_tool_call req))
      with (Remote.authenticate cfg env req).
    destruct (Remote.authenticate cfg env req); [|discriminate].
    cbn [body_tool body_arguments as_tool_call].
    rewrite (truthy_nonempty "analyze_video_url") by discriminate. cbn [negb].
    rewrite Hurl. apply call_tool_url_eq. exact Hne. }
  assert (Hws : Remote.ws_on_message cfg env (as_ws_call req id) w
                = match url_outcome cfg env url (body_analysis_prompt req) w with
                  | (Return r, w') => (Return tt, push_outbox (WsToolResult id r) w')
                  | (Throw e, w') =>
                      (Return tt, push_outbox (WsError id (message e)) w')
                  | (Pending, w') => (Pending, w')
                  end).
  { unfold as_ws_call. rewrite Hurl. apply ws_on_message_url_eq. }
  rewrite Hmcp, Hcall, Hws.
  pose proof (url_outcome_pending_iff cfg env url (body_analysis_prompt req) w) as Hp.
  destruct (url_outcome cfg env url (body_analysis_prompt req) w) as [[r|e|] w'];
    simpl in Hp.
  - split.
    + intros _. eexists; eexists; (split; [reflexivity|]); (split; [reflexivity|]);
        (split; [reflexivity|]); eexists; split; reflexivity.
    + intros Hno. apply Hp in Hno. discriminate.
  - split.
    + intros _. eexists; eexists; (split; [reflexivity|]); (split; [reflexivity|]);
        (split; [reflexivity|]); eexists; split; reflexivity.
    + intros Hno. apply Hp in Hno. discriminate.
  - split.
    + intros Hyes. rewrite (proj1 Hp eq_refl) in Hyes. discriminate.
    + intros _. exists w'. repeat split.
Qed.

Lemma transports_agree_on_url_analysis_witness :
  exists r w',
    Remote.api_analyze_url secured sample_env
      (url_request "https://cdn.example/clip.mp4") sample_world = (Return r, w')
    /\ Remote.mcp_post secured sample_env
         (as_tool_call (url_request "https://cdn.example/clip.mp4")) sample_world
       = (Return (mcp_envelope r), w').
Proof.
  destruct (proj1 (transports_agree_on_url_analysis secured sample_env
                     (url_request "https://cdn.example/clip.mp4")
                     "https://cdn.example/clip.mp4" (JOther "7") sample_world
                     ltac:(reflexivity) ltac:(reflexivity) ltac:(discriminate))
              ltac:(reflexivity))
    as (r & w' & Hrest & Hmcp & _).
  exists r, w'. split; assumption.
Defined.

(** ** One reply for each WebSocket message *)




(** ** Failures of the download and of the configuration *)

Lemma url_outcome_not_ok (cfg : Config) (env : Env) (url : string)
      (prompt : option string) (statusText : string) (body : body_stream)
      (w : World) :
  fetch env url = FetchResponse false statusText body ->
  url_outcome cfg env url prompt w
  = (Throw (DownloadFailed statusText),
     set_fs (delete (temp_path env w)) (drew_uuid w)).
Proof.
  intros Hfetch. unfold url_outcome, downloadFile. rewrite Hfetch. reflexivity.
Qed.

Lemma downloadFile_not_ok (env : Env) (url p statusText : string)
      (body : body_stream) (w : World) :
  fetch env url = FetchResponse false statusText body ->
  downloadFile env url p w = (Throw (DownloadFailed statusText), w).
Proof. intros Hfetch. unfold downloadFile. rewrite Hfetch. reflexivity. Qed.

Lemma SSE_url_not_ok (key : option string) (env : Env) (url statusText : string)
      (prompt : option string) (body : body_stream) (w : World) :
  url <> "" ->
  fetch env url = FetchResponse false statusText body ->
  SSE.callTool key env "analyze_video_url"
    {| file_path := None; video_url := Some url; analysis_prompt := prompt |} w
  = (Throw (McpError InternalError ("Failed to download file: " ++ statusText)),
     set_fs (delete (temp_path env w)) (drew_uuid w)).
Proof.
  intros Hne Hfetch. unfold SSE.callTool.
  rewrite bool_decide_eq_false_2 by discriminate.
  rewrite bool_decide_eq_true_2 by reflexivity.
  unfold SSE.call_analyze_video_url. cbn [video_url analysis_prompt].
  rewrite (truthy_nonempty url Hne). cbn [negb].
  unfold try_catch at 1. unfold bind at 1. rewrite tempFile_eq. fold (drew_uuid w).
  unfold try_catch at 1. unfold bind at 1.
  rewrite (downloadFile_not_ok env url _ statusText body _ Hfetch).
  unfold bind at 1. rewrite unlinkIfExists_eq. reflexivity.
Qed.

Lemma log_calls_calls_prefix (cs : list call) (w : World) :
  calls (log_calls cs w) = (calls w ++ cs)%list.
Proof. reflexivity. Qed.


(** When the server of the video answers with an unsuccessful status, every
    transport reports ["Failed to download file: " ++ statusText] (the REST
    endpoint and POST /mcp with status 500, the WebSocket as an error
    carrying the request id, mcp-server.js as an internal MCP error), and
    the provider is not called. *)
Theorem download_failure_is_reported (cfg : Config) (env : Env) (req : Request)
        (url statusText : string) (body : body_stream) (id : JsVal) (w : World) :
  granted (Remote.authenticate cfg env req) = true ->
  body_video_url req = Some url ->
  url <> "" ->
  fetch env url = FetchResponse false statusText body ->
  let msg := "Failed to download file: " ++ statusText in
  (fst (Remote.api_analyze_url cfg env req w)
   = Return {| status := 500; body := JsonFailure msg |}
   /\ calls (snd (Remote.api_analyze_url cfg env req w)) = calls w)
  /\ (fst (Remote.mcp_post cfg env (as_tool_call req) w)
      = Return {| status := 500; body := JsonError msg |}
      /\ calls (snd (Remote.mcp_post cfg env (as_tool_call req) w)) = calls w)
  /\ (outbox (snd (Remote.ws_on_message cfg env (as_ws_call req id) w))
      = (outbox w ++ [WsError id msg])%list
      /\ calls (snd (Remote.ws_on_message cfg env (as_ws_call req id) w)) = calls w)
  /\ (fst (SSE.callTool (GOOGLE_API_KEY cfg) env "analyze_video_url"
             {| file_path := None; video_url := Some url;
                analysis_prompt := body_analysis_prompt req |} w)
      = Throw (McpError InternalError msg)
      /\ calls (snd (SSE.callTool (GOOGLE_API_KEY cfg) env "analyze_video_url"
                      {| file_path := None; video_url := Some url;
                         analysis_prompt := body_analysis_prompt req |} w))
         = calls w).
Proof.
  intros Hauth Hurl Hne Hfetch msg.
  pose proof (url_outcome_not_ok cfg env url (body_analysis_prompt req)
                statusText body w Hfetch) as Hout.
  split.
  { rewrite (api_analyze_url_eq cfg env req url w Hauth Hurl Hne), Hout.
    split; reflexivity. }
  split.
  { unfold Remote.mcp_post, Remote.behind_authenticate.
    change (Remote.authenticate cfg env (as_tool_call req))
      with (Remote.authenticate cfg env req).
    destruct (Remote.authenticate cfg env req); [|discriminate].
    cbn [body_method params_name params_arguments as_tool_call].
    rewrite bool_decide_eq_false_2 by discriminate.
    rewrite bool_decide_eq_true_2 by reflexivity.
    rewrite Hurl, (call_tool_url_eq cfg env url _ w Hne), Hout.
    split; reflexivity. }
  split.
  { unfold as_ws_call. rewrite Hurl, ws_on_message_url_eq, Hout.
    split; reflexivity. }
  rewrite (SSE_url_not_ok (GOOGLE_API_KEY cfg) env url statusText _ body w Hne Hfetch).
  split; reflexivity.
Qed.

Lemma download_failure_is_reported_witness :
  fst (Remote.api_analyze_url secured sample_env
         (url_request "https://cdn.example/gone.mp4") sample_world)
  = Return {| status := 500;
              body := JsonFailure "Failed to download file: Not Found" |}.
Proof.
  apply (download_failure_is_reported secured sample_env
           (url_request "https://cdn.example/gone.mp4")
           "https://cdn.example/gone.mp4" "Not Found"
           (BodyComplete {| size := 0 |}) JUndefined sample_world);
    [reflexivity|reflexivity|discriminate|reflexivity].
Defined.



(** ** The client's pending calls *)

Lemma client_inv_create k u p : client_inv (Client.create k u p).
Proof.
  unfold client_inv, Client.create; simpl.
  split; [| split; [| split]].
  - intros n Hn. set_solver.
  - intros n Hn. apply elem_of_nil in Hn. destruct Hn.
  - intros n Hn. apply elem_of_nil in Hn. destruct Hn.
  - constructor.
Qed.

Lemma client_inv_emit ev c : client_inv c -> client_inv (Client.emit ev c).
Proof. unfold client_inv, Client.emit; simpl; auto. Qed.

Lemma client_inv_settle n s ev c :
  n ∈ pendingRequests c -> client_inv c -> client_inv (Client.settle n s ev true c).
Proof.
  intros Hn (Hp & Hs & Hd & Hnd). unfold client_inv, Client.settle; simpl.
  rewrite map_app; simpl. split; [| split; [| split]].
  - intros m Hm. apply Hp. apply elem_of_difference in Hm as [Hm _]. exact Hm.
  - intros m Hm. apply elem_of_app in Hm as [Hm | Hm]; [apply Hs, Hm |].
    apply list_elem_of_singleton in Hm as ->. apply Hp, Hn.
  - intros m Hm. apply elem_of_app in Hm as [Hm | Hm].
    + intros Hin. apply (Hd _ Hm). apply elem_of_difference in Hin as [Hin _]. exact Hin.
    + apply list_elem_of_singleton in Hm as ->. intros Hin.
      apply elem_of_difference in Hin as [_ Hin].
      apply Hin, elem_of_singleton. reflexivity.
  - apply NoDup_app. repeat split; [exact Hnd | | apply NoDup_singleton].
    intros m Hm Hm'. apply list_elem_of_singleton in Hm' as ->.
    exact (Hd _ Hm Hn).
Qed.

Lemma is_pending_Some id c n :
  Client.is_pending id c = Some n -> n ∈ pendingRequests c.
Proof.
  destruct id as [m |]; simpl; [| discriminate].
  destruct (negb (m =? 0)%nat); simpl; [| discriminate].
  case_bool_decide; [| discriminate]. intros [= <-]. assumption.
Qed.

Lemma client_inv_handle m c :
  client_inv c -> client_inv (Client.handleWebSocketMessage m c).
Proof.
  intros Hc. destruct m; simpl; try (apply client_inv_emit, Hc).
  - destruct (Client.is_pending id c) eqn:E.
    + apply client_inv_settle; [eapply is_pending_Some, E | exact Hc].
    + apply client_inv_emit, Hc.
  - destruct (Client.is_pending id c) eqn:E.
    + apply client_inv_settle; [eapply is_pending_Some, E | exact Hc].
    + apply client_inv_emit, Hc.
Qed.

Lemma client_inv_call t c :
  client_inv c -> client_inv (snd (Client.callToolWS t c)).
Proof.
  intros (Hp & Hs & Hd & Hnd). unfold Client.callToolWS.
  destruct (ws_open c); unfold client_inv; simpl; (split; [| split; [| split]]); auto.
  all: try (intros n Hn; apply elem_of_union in Hn as [Hn | Hn];
            [apply elem_of_singleton in Hn as ->; lia | specialize (Hp _ Hn); lia]).
  all: try (intros n Hn; specialize (Hs _ Hn); lia).
  all: intros n Hn Hin; apply elem_of_union in Hin as [Hin | Hin];
       [apply elem_of_singleton in Hin as ->; specialize (Hs _ Hn); lia
       | exact (Hd _ Hn Hin)].
Qed.

Lemma client_inv_timeout id c :
  client_inv c -> client_inv (Client.timeout id c).
Proof.
  intros Hc. unfold Client.timeout.
  case_bool_decide as Ht; [| exact Hc].
  case_bool_decide as Hp.
  - pose proof (client_inv_settle id (Rejected "Tool call timeout") EvMessage c Hp Hc)
      as (H1 & H2 & H3 & H4).
    unfold client_inv; simpl in *. split; [| split; [| split]]; auto.
  - destruct Hc as (H1 & H2 & H3 & H4). unfold client_inv; simpl.
    split; [| split; [| split]]; auto.
Qed.

Lemma client_inv_step c i : client_inv c -> client_inv (Client.step c i).
Proof.
  intros Hc. destruct i; simpl.
  - exact Hc.
  - exact Hc.
  - apply client_inv_call, Hc.
  - apply client_inv_handle, Hc.
  - apply client_inv_emit, Hc.
  - apply client_inv_timeout, Hc.
Qed.

Lemma client_inv_run inputs : forall c, client_inv c -> client_inv (Client.run c inputs).
Proof.
  induction inputs as [| i inputs IH]; intros c Hc; [exact Hc |].
  apply IH, client_inv_step, Hc.
Qed.

(** Whatever happens to a client (calls, messages of the server with any
    id, timers, the socket opening and closing), the [resolve]/[reject]
    pair of a call is invoked at most once, only for an id that a call
    took, and a settled call is no longer in [pendingRequests]. *)
Theorem client_settles_each_call_once k u p inputs :
  let c := Client.run (Client.create k u p) inputs in
  NoDup (map fst (settled c))
  /\ (forall n, n ∈ map fst (settled c) ->
        (1 <= n <= requestId c)%nat /\ n ∉ pendingRequests c)
  /\ (forall n, n ∈ pendingRequests c -> (1 <= n <= requestId c)%nat).
Proof.
  intros c.
  destruct (client_inv_run inputs _ (client_inv_create k u p)) as (Hp & Hs & Hd & Hnd).
  fold c in Hp, Hs, Hd, Hnd. split; [exact Hnd |]. split; [| exact Hp].
  intros n Hn. split; [apply Hs, Hn | apply Hd, Hn].
Qed.

Lemma timers_bound_step c i :
  (forall n, n ∈ timers c -> (n <= requestId c)%nat) ->
  forall n, n ∈ timers (Client.step c i) -> (n <= requestId (Client.step c i))%nat.
Proof.
  intros Hb n. destruct i; simpl; auto.
  - unfold Client.callToolWS. destruct (ws_open c); simpl.
    + intros Hn. apply elem_of_union in Hn as [Hn | Hn].
      * apply elem_of_singleton in Hn as ->. lia.
      * specialize (Hb _ Hn). lia.
    + intros Hn. specialize (Hb _ Hn). lia.
  - destruct m; simpl; auto;
      destruct (Client.is_pending id c); simpl; auto.
  - unfold Client.timeout. case_bool_decide; [| auto].
    case_bool_decide; simpl; intros Hn;
      apply elem_of_difference in Hn as [Hn _]; auto.
Qed.

Lemma timers_bound_run inputs : forall c,
  (forall n, n ∈ timers c -> (n <= requestId c)%nat) ->
  forall n, n ∈ timers (Client.run c inputs) -> (n <= requestId (Client.run c inputs))%nat.
Proof.
  induction inputs as [| i inputs IH]; intros c Hb; [exact Hb |].
  apply IH, timers_bound_step, Hb.
Qed.

Lemma is_pending_addressed id c n :
  Client.is_pending id c = Some n -> id = IdNumber n.
Proof.
  destruct id as [m |]; simpl; [| discriminate].
  destruct (negb (m =? 0)%nat && bool_decide (m ∈ pendingRequests c)); [| discriminate].
  intros [= <-]. reflexivity.
Qed.

(** A call that no timer watches and no message names stays pending. *)
Lemma unwatched_step id c i :
  (forall m, i = Client.Receive m -> addressed_to m <> Some id) ->
  id ∈ pendingRequests c /\ (id ∉ timers c) /\ (id <= requestId c)%nat
  /\ id ∉ map fst (settled c) ->
  id ∈ pendingRequests (Client.step c i) /\ (id ∉ timers (Client.step c i))
  /\ (id <= requestId (Client.step c i))%nat
  /\ id ∉ map fst (settled (Client.step c i)).
Proof.
  intros Hi (Hp & Ht & Hr & Hs). destruct i; simpl; auto.
  - unfold Client.callToolWS. destruct (ws_open c); simpl.
    + split; [set_solver |]. split; [| split; [lia | exact Hs]].
      intros Hin. apply elem_of_union in Hin as [Hin | Hin]; [| exact (Ht Hin)].
      apply elem_of_singleton in Hin. lia.
    + split; [set_solver |]. split; [exact Ht |]. split; [lia | exact Hs].
  - specialize (Hi m eq_refl).
    destruct m; simpl; auto.
    + destruct (Client.is_pending id0 c) as [n |] eqn:E; simpl; auto.
      apply is_pending_addressed in E as ->. simpl in Hi.
      assert (n <> id) by congruence.
      split; [set_solver |]. split; [exact Ht |]. split; [exact Hr |].
      rewrite map_app; simpl. intros Hin.
      apply elem_of_app in Hin as [Hin | Hin]; [exact (Hs Hin) |].
      apply list_elem_of_singleton in Hin. congruence.
    + destruct (Client.is_pending id0 c) as [n |] eqn:E; simpl; auto.
      apply is_pending_addressed in E as ->. simpl in Hi.
      assert (n <> id) by congruence.
      split; [set_solver |]. split; [exact Ht |]. split; [exact Hr |].
      rewrite map_app; simpl. intros Hin.
      apply elem_of_app in Hin as [Hin | Hin]; [exact (Hs Hin) |].
      apply list_elem_of_singleton in Hin. congruence.
  - unfold Client.timeout. case_bool_decide as Hin; [| auto].
    assert (id0 <> id) by (intros ->; exact (Ht Hin)).
    case_bool_decide; simpl.
    + split.
      { apply elem_of_difference. split; [exact Hp |].
        intros Hx. apply elem_of_singleton in Hx. congruence. }
      split; [intros Hx; apply elem_of_difference in Hx as [Hx _]; exact (Ht Hx) |].
      split; [exact Hr |].
      rewrite map_app; simpl. intros Hin'.
      apply elem_of_app in Hin' as [Hin' | Hin']; [exact (Hs Hin') |].
      apply list_elem_of_singleton in Hin'. congruence.
    + split; [exact Hp |].
      split; [intros Hx; apply elem_of_difference in Hx as [Hx _]; exact (Ht Hx) |].
      split; [exact Hr | exact Hs].
Qed.

Lemma unwatched_run id inputs : forall c,
  (forall m, (Client.Receive m) ∈ inputs -> addressed_to m <> Some id) ->
  id ∈ pendingRequests c /\ (id ∉ timers c) /\ (id <= requestId c)%nat
  /\ id ∉ map fst (settled c) ->
  id ∈ pendingRequests (Client.run c inputs)
  /\ id ∉ map fst (settled (Client.run c inputs)).
Proof.
  induction inputs as [| i inputs IH]; intros c Hin Hc.
  - destruct Hc as (Hp & _ & _ & Hs). split; assumption.
  - apply IH.
    + intros m Hm. apply Hin. right. exact Hm.
    + apply unwatched_step; [| exact Hc].
      intros m ->. apply Hin. left.
Qed.

(** A call made while the socket is not open fails with "WebSocket is not
    connected", yet its entry has been put in [pendingRequests] and no timer
    was started for it: whatever the client does afterwards, the entry
    stays, its callbacks uncalled, unless the server sends a result or an
    error carrying that very id. *)
Theorem unsent_call_is_never_timed_out (k u p : option string)
        (before after : list Client.Input) (toolName : string) :
  let c := Client.run (Client.create k u p) before in
  let id := S (requestId c) in
  let c' := Client.run (snd (Client.callToolWS toolName c)) after in
  ws_open c = false ->
  (forall m, (Client.Receive m) ∈ after -> addressed_to m <> Some id) ->
  fst (Client.callToolWS toolName c) = Throw (OtherError "WebSocket is not connected")
  /\ id ∈ pendingRequests c'
  /\ id ∉ map fst (settled c').
Proof.
  intros c id c' Hopen Hafter.
  split; [unfold Client.callToolWS; rewrite Hopen; reflexivity |].
  apply unwatched_run; [exact Hafter |].
  pose proof (timers_bound_run before (Client.create k u p)) as Hb.
  fold c in Hb.
  destruct (client_inv_run before _ (client_inv_create k u p)) as (_ & Hs & _ & _).
  fold c in Hs.
  unfold Client.callToolWS. rewrite Hopen. simpl. fold id.
  split; [apply elem_of_union; left; apply elem_of_singleton; reflexivity |].
  split; [| split; [lia |]].
  - intros Hin. apply Hb in Hin; [unfold id in Hin; lia |].
    simpl. intros n Hn. set_solver.
  - intros Hin. apply Hs in Hin. unfold id in Hin. lia.
Qed.

Lemma unsent_call_is_never_timed_out_witness :
  1%nat ∈ pendingRequests
    (Client.run (snd (Client.callToolWS "analyze_video_url" (Client.create None None None)))
       [Client.Open; Client.TimerFires 1; Client.Close]).
Proof.
  apply (unsent_call_is_never_timed_out None None None []
           [Client.Open; Client.TimerFires 1; Client.Close] "analyze_video_url").
  - reflexivity.
  - intros m Hm. exfalso.
    apply elem_of_cons in Hm as [Hm | Hm]; [discriminate |].
    apply elem_of_cons in Hm as [Hm | Hm]; [discriminate |].
    apply elem_of_cons in Hm as [Hm | Hm]; [discriminate |].
    apply elem_of_nil in Hm. exact Hm.
Defined.

(** ** Credentials between the client and the server *)

Lemma split_char_absent c s :
  Forall (fun a => a <> c) (list_ascii_of_string s) -> split_char c s = [s].
Proof.
  induction s as [| a s IH]; intros H; [reflexivity |].
  simpl in H. apply Forall_cons in H as [Ha Hs].
  simpl. rewrite bool_decide_eq_false_2 by exact Ha.
  rewrite (IH Hs). reflexivity.
Qed.

Lemma is_prefix_absent x sep : In x (list_ascii_of_string sep) -> forall s,
  Forall (fun a => a <> x) (list_ascii_of_string s) -> is_prefix sep s = false.
Proof.
  induction sep as [| a sep IH]; intros Hx s Hs; [destruct Hx |].
  destruct s as [| b s]; [reflexivity |].
  simpl in Hs. apply Forall_cons in Hs as [Hb Hs].
  simpl. destruct Hx as [-> | Hx].
  - rewrite bool_decide_eq_false_2; [reflexivity | congruence].
  - rewrite (IH Hx s Hs). apply andb_false_r.
Qed.

Lemma split_go_absent x sep s :
  In x (list_ascii_of_string sep) ->
  Forall (fun a => a <> x) (list_ascii_of_string s) ->
  split_go sep 0 s = [s].
Proof.
  intros Hx. induction s as [| a s IH]; intros Hs; [reflexivity |].
  cbn [split_go].
  rewrite (is_prefix_absent x sep Hx (String a s) Hs).
  simpl in Hs. apply Forall_cons in Hs as [_ Hs].
  rewrite (IH Hs). reflexivity.
Qed.

Lemma url_safe_no (x : ascii) s :
  url_safe s -> (x = " " \/ x = "&" \/ x = "=")%char ->
  Forall (fun a => a <> x) (list_ascii_of_string s).
Proof.
  intros Hs Hx. eapply Forall_impl; [exact Hs |].
  intros a Ha ->. unfold url_safe_char in Ha.
  destruct Hx as [-> | [-> | ->]]; cbv in Ha; lia.
Qed.

Lemma bearer_round_trip req t :
  url_safe t ->
  authorization req = Some ("Bearer " ++ t) ->
  Remote.bearer req = Some t.
Proof.
  intros Ht Hh. unfold Remote.bearer. rewrite Hh.
  change ("Bearer " ++ t) with
    (String "B" (String "e" (String "a" (String "r" (String "e" (String "r"
       (String " " t))))))).
  simpl. rewrite (split_char_absent " " t) by (apply url_safe_no; auto).
  reflexivity.
Qed.

Lemma url_param_api_key k :
  url_safe k -> Remote.url_param "api_key=" ("/ws/mcp" ++ "?" ++ "api_key=" ++ k) = Some k.
Proof.
  intros Hk. unfold Remote.url_param, split_str.
  change ("/ws/mcp" ++ "?" ++ "api_key=" ++ k) with
    (String "/" (String "w" (String "s" (String "/" (String "m" (String "c"
      (String "p" (String "?" (String "a" (String "p" (String "i" (String "_"
      (String "k" (String "e" (String "y" (String "=" k)))))))))))))))).
  simpl.
  rewrite (split_go_absent "=" "api_key=" k)
    by (simpl; auto 10 || apply url_safe_no; auto).
  simpl. rewrite (split_char_absent "&" k) by (apply url_safe_no; auto).
  reflexivity.
Qed.

Lemma url_param_token t :
  url_safe t -> Remote.url_param "token=" ("/ws/mcp" ++ "?" ++ "token=" ++ t) = Some t.
Proof.
  intros Ht. unfold Remote.url_param, split_str.
  change ("/ws/mcp" ++ "?" ++ "token=" ++ t) with
    (String "/" (String "w" (String "s" (String "/" (String "m" (String "c"
      (String "p" (String "?" (String "t" (String "o" (String "k" (String "e"
      (String "n" (String "=" t)))))))))))))).
  simpl.
  rewrite (split_go_absent "=" "token=" t)
    by (simpl; auto 10 || apply url_safe_no; auto).
  simpl. rewrite (split_char_absent "&" t) by (apply url_safe_no; auto).
  reflexivity.
Qed.

Lemma url_param_no_api_key t :
  url_safe t -> Remote.url_param "api_key=" ("/ws/mcp" ++ "?" ++ "token=" ++ t) = None.
Proof.
  intros Ht. unfold Remote.url_param, split_str.
  change ("/ws/mcp" ++ "?" ++ "token=" ++ t) with
    (String "/" (String "w" (String "s" (String "/" (String "m" (String "c"
      (String "p" (String "?" (String "t" (String "o" (String "k" (String "e"
      (String "n" (String "=" t)))))))))))))).
  simpl.
  rewrite (split_go_absent "=" "api_key=" t)
    by (simpl; auto 10 || apply url_safe_no; auto).
  reflexivity.
Qed.

Lemma ws_on_connection_fst cfg env url w :
  fst (Remote.ws_on_connection cfg env url w)
  = Return (negb (ENABLE_AUTH cfg && negb (Remote.ws_authenticated cfg env url))).
Proof.
  unfold Remote.ws_on_connection, bind, fresh_uuid.
  destruct (ENABLE_AUTH cfg && negb (Remote.ws_authenticated cfg env url));
    reflexivity.
Qed.

(** A client created with the API key the server is configured with is let
    in on both transports: the headers of [getAuthHeaders] pass the
    [authenticate] middleware, and the URL [connectWebSocket] opens passes
    the handshake check (for this the key must reach the server as it was
    written and survive the server's splitting of the URL: printable ASCII
    without the characters [url_safe_char] excludes). *)
Theorem client_key_is_accepted (cfg : Config) (env : Env)
        (post_token : option string -> option string -> TokenResponse)
        (c : ClientState) (k : string) (req : Request) (w : World) :
  apiKey c = Some k ->
  API_KEY cfg = Some k ->
  k <> "" ->
  url_safe k ->
  exists h,
    Client.getAuthHeaders post_token c = (Return h, c)
    /\ h_x_api_key h = Some k
    /\ granted (Remote.authenticate cfg env (Client.request_with h req)) = true
    /\ Client.connect_path c = "/ws/mcp?api_key=" ++ k
    /\ fst (Remote.ws_on_connection cfg env (Client.connect_path c) w) = Return true.
Proof.
  intros Hc Hcfg Hk Hsafe.
  assert (Htr : truthy (Some k) = true)
    by (simpl; rewrite bool_decide_eq_false_2 by exact Hk; reflexivity).
  exists (Client.headers_of c true).
  unfold Client.getAuthHeaders. rewrite Hc, Htr.
  split; [reflexivity |]. split; [simpl; exact Hc |]. split.
  { unfold Remote.authenticate. destruct (ENABLE_AUTH cfg); [| reflexivity].
    cbn [negb]. rewrite Hcfg, Htr.
    cbn [Client.request_with Client.headers_of x_api_key query_api_key h_x_api_key].
    rewrite Hc. unfold js_or. rewrite Htr.
    rewrite bool_decide_eq_true_2 by reflexivity. reflexivity. }
  assert (Hpath : Client.connect_path c = "/ws/mcp" ++ "?" ++ "api_key=" ++ k).
  { unfold Client.connect_path, Client.authParams. rewrite Hc, Htr.
    assert (truthy (Some ("api_key=" ++ k)) = true) as -> by reflexivity.
    reflexivity. }
  split; [exact Hpath |].
  rewrite ws_on_connection_fst, Hpath.
  unfold Remote.ws_authenticated.
  rewrite (url_param_api_key k Hsafe), Hcfg, Htr.
  rewrite bool_decide_eq_true_2 by reflexivity.
  cbn [andb negb]. rewrite andb_false_r. reflexivity.
Qed.

Lemma client_key_is_accepted_witness :
  exists h,
    Client.getAuthHeaders (fun _ _ => InvalidCredentials)
      (Client.create (Some "s3cret") None None)
    = (Return h, Client.create (Some "s3cret") None None)
    /\ granted (Remote.authenticate secured sample_env
                  (Client.request_with h (url_request "https://cdn.example/clip.mp4")))
       = true.
Proof.
  destruct (client_key_is_accepted secured sample_env (fun _ _ => InvalidCredentials)
              (Client.create (Some "s3cret") None None) "s3cret"
              (url_request "https://cdn.example/clip.mp4") sample_world)
    as (h & H1 & _ & H2 & _).
  - reflexivity.
  - reflexivity.
  - discriminate.
  - repeat (constructor; [unfold url_safe_char; cbv; lia |]). constructor.
  - exists h. split; [exact H1 | exact H2].
Defined.

(** A client created with a user name and a password logs in once: the
    first [getAuthHeaders] posts them to /api/auth/token and keeps the
    token, later calls reuse it.  When the token verifies, the headers pass
    the [authenticate] middleware and the URL [connectWebSocket] opens passes
    the handshake check, whatever shared secret the server has. *)
Theorem client_login_is_accepted (cfg : Config) (env : Env)
        (post_token : option string -> option string -> TokenResponse)
        (c : ClientState) (t expiresIn : string) (req : Request) (w : World) :
  truthy (apiKey c) = false ->
  truthy (username c) = true ->
  truthy (password c) = true ->
  token c = None ->
  post_token (username c) (password c) = Issued t expiresIn ->
  t <> "" ->
  url_safe t ->
  jwt_verify env t = true ->
  exists h c',
    Client.getAuthHeaders post_token c = (Return h, c')
    /\ token c' = Some t
    /\ h = {| h_x_api_key := None; h_authorization := Some ("Bearer " ++ t) |}
    /\ Client.getAuthHeaders (fun _ _ => InvalidCredentials) c' = (Return h, c')
    /\ granted (Remote.authenticate cfg env (Client.request_with h req)) = true
    /\ Client.connect_path c' = "/ws/mcp?token=" ++ t
    /\ fst (Remote.ws_on_connection cfg env (Client.connect_path c') w) = Return true.
Proof.
  intros Hkey Hu Hp Htok Hpost Ht Hsafe Hver.
  assert (Htr : truthy (Some t) = true)
    by (simpl; rewrite bool_decide_eq_false_2 by exact Ht; reflexivity).
  exists {| h_x_api_key := None; h_authorization := Some ("Bearer " ++ t) |}.
  exists (Client.set_token t expiresIn c).
  assert (Hh : Client.headers_of (Client.set_token t expiresIn c) false
               = {| h_x_api_key := None; h_authorization := Some ("Bearer " ++ t) |}).
  { unfold Client.headers_of. cbn [token Client.set_token]. rewrite Htr. reflexivity. }
  split.
  { unfold Client.getAuthHeaders, Client.authenticate.
    rewrite Hkey, Hu, Hp, Htok, Hpost. cbn [truthy negb andb]. rewrite Hh. reflexivity. }
  split; [reflexivity |]. split; [reflexivity |]. split.
  { unfold Client.getAuthHeaders. cbn [apiKey token Client.set_token].
    rewrite Hkey, Htr. cbn [negb]. rewrite andb_false_r, Hh. reflexivity. }
  split.
  { unfold Remote.authenticate. destruct (ENABLE_AUTH cfg); [| reflexivity].
    cbn [negb].
    rewrite (bearer_round_trip
               (Client.request_with
                  {| h_x_api_key := None; h_authorization := Some ("Bearer " ++ t) |} req)
               t Hsafe eq_refl).
    rewrite Htr, Hver.
    destruct (truthy (API_KEY cfg) && _); reflexivity. }
  assert (Hpath : Client.connect_path (Client.set_token t expiresIn c)
                  = "/ws/mcp" ++ "?" ++ "token=" ++ t).
  { unfold Client.connect_path, Client.authParams. cbn [apiKey token Client.set_token].
    assert (truthy (Some ("token=" ++ t)) = true) as Hq by reflexivity.
    destruct (apiKey c) as [k |]; rewrite ?Hkey, Htr, Hq; reflexivity. }
  split; [exact Hpath |].
  rewrite ws_on_connection_fst, Hpath.
  unfold Remote.ws_authenticated. cbv zeta.
  rewrite (url_param_token t Hsafe), (url_param_no_api_key t Hsafe), Htr, Hver.
  destruct (truthy (API_KEY cfg) && _); cbn [negb]; rewrite andb_false_r; reflexivity.
Qed.

Lemma client_login_is_accepted_witness :
  exists h c',
    Client.getAuthHeaders (fun _ _ => Issued "eyJ.admin.sig" "24h")
      (Client.create None (Some "admin") (Some "admin")) = (Return h, c')
    /\ granted (Remote.authenticate secured verifying_env
                  (Client.request_with h (url_request "https://cdn.example/clip.mp4")))
       = true.
Proof.
  destruct (client_login_is_accepted secured verifying_env
              (fun _ _ => Issued "eyJ.admin.sig" "24h")
              (Client.create None (Some "admin") (Some "admin"))
              "eyJ.admin.sig" "24h"
              (url_request "https://cdn.example/clip.mp4") sample_world)
    as (h & c' & H1 & _ & _ & _ & H2 & _).
  - reflexivity.
  - reflexivity.
  - reflexivity.
  - reflexivity.
  - reflexivity.
  - discriminate.
  - repeat (constructor; [unfold url_safe_char; cbv; lia |]). constructor.
  - reflexivity.
  - exists h, c'. split; [exact H1 | exact H2].
Defined.

(** ** The token route and the permissive fallback *)

(** With neither AUTH_USERNAME nor AUTH_PASSWORD_HASH set (or set to the
    empty string), POST /api/auth/token knows the user admin with the
    password admin.  It issues a token for the pair admin/admin, signed for
    ["admin"] at the time of the request.  Any other user name is answered
    401, whatever the password, sent or not.  For the user admin a password
    is answered by what [bcrypt] says of it against the hash of ["admin"]: a
    token when it is accepted, 401 when it is not; and when no password is
    sent [bcrypt.compareSync] throws, so that the route answers nothing.
    The one thing taken of [bcrypt] is that it accepts a password against a
    hash of its own making, whatever salt the hash drew. *)
Theorem default_credentials_are_admin_admin
        (getenv : string -> option string)
        (bcrypt_hashSync : string -> string -> string)
        (bcrypt_compareSync : string -> string -> bool)
        (jwt_sign : string -> Z -> string)
        (salt : string) (w : World) :
  truthy (getenv "AUTH_USERNAME") = false ->
  truthy (getenv "AUTH_PASSWORD_HASH") = false ->
  (forall s b, bcrypt_compareSync b (bcrypt_hashSync s b) = true) ->
  let route := Token.api_auth_token getenv bcrypt_hashSync bcrypt_compareSync
                 jwt_sign salt in
  route (Some "admin") (Some "admin") w
  = (Return (Issued (jwt_sign "admin" (clock w)) "24h"), w)
  /\ (forall u p, u <> Some "admin" -> route u p w = (Return InvalidCredentials, w))
  /\ (forall p,
        route (Some "admin") (Some p) w
        = (Return (if bcrypt_compareSync p (bcrypt_hashSync salt "admin")
                   then Issued (jwt_sign "admin" (clock w)) "24h"
                   else InvalidCredentials), w))
  /\ route (Some "admin") None w
     = (Throw (OtherError "Illegal arguments: undefined, string"), w).
Proof.
  intros Hu Hh Hb route.
  assert (Token.validUsername getenv = "admin") as Eu.
  { unfold Token.validUsername. destruct (getenv "AUTH_USERNAME"); [| reflexivity].
    rewrite Hu. reflexivity. }
  assert (Token.validPasswordHash getenv bcrypt_hashSync salt
          = bcrypt_hashSync salt "admin") as Eh.
  { unfold Token.validPasswordHash. destruct (getenv "AUTH_PASSWORD_HASH"); [| reflexivity].
    rewrite Hh. reflexivity. }
  unfold route, Token.api_auth_token. rewrite Eu, Eh.
  split; [| split; [| split]].
  - rewrite bool_decide_eq_true_2 by reflexivity. rewrite Hb. reflexivity.
  - intros u p Hne. rewrite bool_decide_eq_false_2 by exact Hne. reflexivity.
  - intros p. rewrite bool_decide_eq_true_2 by reflexivity.
    destruct (bcrypt_compareSync p (bcrypt_hashSync salt "admin")); reflexivity.
  - rewrite bool_decide_eq_true_2 by reflexivity. reflexivity.
Qed.

Lemma default_credentials_are_admin_admin_witness :
  Token.api_auth_token (fun _ => None) sample_hashSync sample_compareSync sample_sign
    "N9qo8uLOickgx2ZMRZoMye" (Some "admin") (Some "admin") sample_world
  = (Return (Issued "eyJ.admin.sig" "24h"), sample_world).
Proof.
  apply (default_credentials_are_admin_admin (fun _ => None) sample_hashSync
           sample_compareSync sample_sign "N9qo8uLOickgx2ZMRZoMye" sample_world).
  - reflexivity.
  - reflexivity.
  - intros salt b. unfold sample_compareSync, sample_hashSync.
    apply bool_decide_eq_true_2. reflexivity.
Defined.

(** When the process starts without API_KEY (unset or empty), the
    [authenticate] middleware lets every HTTP request through, with or
    without credentials, even one whose token does not verify.  The
    WebSocket endpoint is stricter: unless ENABLE_AUTH is the string
    ['false'], a connection whose URL carries a non-empty token that does
    not verify is refused, and every other connection is accepted. *)
Theorem no_secret_configured (getenv : string -> option string) (env : Env) :
  truthy (getenv "API_KEY") = false ->
  let cfg := load_config getenv in
  (forall req, granted (Remote.authenticate cfg env req) = true)
  /\ (forall url w,
        fst (Remote.ws_on_connection cfg env url w) = Return false
        <-> getenv "ENABLE_AUTH" <> Some "false"
            /\ exists t, Remote.url_param "token=" url = Some t
                         /\ t <> "" /\ jwt_verify env t = false).
Proof.
  intros Hkey cfg.
  assert (Hcfg : truthy (API_KEY cfg) = false).
  { unfold cfg, load_config; cbn [API_KEY]. rewrite Hkey. reflexivity. }
  split.
  - intros req. unfold Remote.authenticate. rewrite Hcfg.
    destruct (ENABLE_AUTH cfg); cbn [negb andb]; [| reflexivity].
    destruct (Remote.bearer req) as [t |]; [| reflexivity].
    destruct (truthy (Some t) && jwt_verify env t); reflexivity.
  - intros url w. rewrite ws_on_connection_fst.
    unfold Remote.ws_authenticated. cbv zeta. rewrite Hcfg. cbn [andb negb].
    unfold cfg at 1, load_config; cbn [ENABLE_AUTH].
    destruct (Remote.url_param "token=" url) as [t |].
    + case_bool_decide as He; cbn [negb andb].
      * split; [discriminate |]. intros [Hne _]. contradiction.
      * destruct (truthy (Some t)) eqn:Ht.
        -- destruct (jwt_verify env t) eqn:Hv; cbn [negb].
           ++ split; [discriminate |]. intros (_ & t' & [= <-] & _ & Hv'). congruence.
           ++ split; [| intros _; reflexivity]. intros _. split; [exact He |].
              exists t. split; [reflexivity |]. split; [| exact Hv].
              intros ->. discriminate.
        -- cbn [negb]. split; [discriminate |].
           intros (_ & t' & [= <-] & Hne & _).
           simpl in Ht. apply negb_false_iff, bool_decide_eq_true_1 in Ht. contradiction.
    + split.
      * destruct (negb (bool_decide _)); discriminate.
      * intros (_ & t' & [=] & _).
Qed.

Lemma no_secret_configured_witness :
  granted (Remote.authenticate (load_config (fun _ => None)) sample_env
             (url_request "https://cdn.example/clip.mp4")) = true.
Proof.
  exact (proj1 (no_secret_configured (fun _ => None) sample_env eq_refl)
           (url_request "https://cdn.example/clip.mp4")).
Defined.

(** ** What a handler answers and what it throws *)













(** ** The listing and the dispatch *)








(** ** The file route of the plain server *)




(** ** The stdio server without a back end *)

(** The stdio server of stdio-server.js answers every tool call, and never
    with a result of an analysis: for each of the ten names it lists, the
    reply is the setup-required object (success false, the tool's name and
    the arguments echoed, an empty object when none were sent), and for any
    other name it is the text ["Error: Unknown tool: " ++ name], flagged as
    an error. *)
Theorem stdio_tools_require_setup (Args : Type) (noArgs : Args) (n : string)
        (args : option Args) :
  Stdio.callTool Args noArgs n args
  = if bool_decide (n ∈ Stdio.mockTools)
    then TextResult (Stdio.setupRequiredResponse Args n (default noArgs args))
    else TextError ("Error: Unknown tool: " ++ n).
Proof.
  destruct (decide (n ∈ Stdio.mockTools)) as [Hn | Hn].
  - rewrite (bool_decide_eq_true_2 _ Hn). unfold Stdio.mockTools in Hn.
    repeat (apply elem_of_cons in Hn as [-> | Hn]; [reflexivity |]).
    apply elem_of_nil in Hn. destruct Hn.
  - rewrite (bool_decide_eq_false_2 _ Hn).
    unfold Stdio.callTool, Stdio.executeTool.
    repeat (rewrite bool_decide_eq_false_2;
            [| intros ->; apply Hn; unfold Stdio.mockTools;
               repeat first [apply list_elem_of_here | apply list_elem_of_further]]).
    reflexivity.
Qed.

(** ** The registry of SSE sessions *)

Lemma open_session_snoc events e s :
  open_session (events ++ [e]) s
  <-> e = Sessions.Connects {| sessionId := s |}
      \/ (e <> Sessions.Closes {| sessionId := s |} /\ open_session events s).
Proof.
  split.
  - intros (before & after & Heq & Hno).
    induction after as [| x after0 _] using rev_ind.
    + apply (app_inj_tail events before) in Heq as [_ ->]. left. reflexivity.
    + right. rewrite app_comm_cons, app_assoc in Heq.
      apply app_inj_tail in Heq as [-> ->].
      split.
      * intros ->. apply Hno. apply elem_of_app. right. apply list_elem_of_here.
      * exists before, after0. split; [reflexivity |].
        intros Hin. apply Hno. apply elem_of_app. left. exact Hin.
  - intros [-> | (Hne & before & after & -> & Hno)].
    + exists events, []. split; [reflexivity |]. apply not_elem_of_nil.
    + exists before, (after ++ [e])%list. split.
      * rewrite <- app_assoc. reflexivity.
      * intros Hin. apply elem_of_app in Hin as [Hin | Hin]; [exact (Hno Hin) |].
        apply list_elem_of_singleton in Hin. congruence.
Qed.

Lemma run_snoc events e :
  Sessions.run (events ++ [e]) = Sessions.on_event (Sessions.run events) e.
Proof. unfold Sessions.run. rewrite fold_left_app. reflexivity. Qed.

Lemma registry_lookup events s t :
  Sessions.run events !! s = Some t
  <-> t = {| sessionId := s |} /\ open_session events s.
Proof.
  revert t. induction events as [| e events IH] using rev_ind; intros t.
  - unfold Sessions.run; cbn [fold_left]. rewrite lookup_empty. split; [discriminate |].
    intros (_ & before & after & Heq & _). destruct before; discriminate.
  - rewrite run_snoc, open_session_snoc.
    destruct e as [[k] | [k]]; simpl.
    + destruct (decide (k = s)) as [-> | Hk].
      * rewrite lookup_insert_eq. split.
        -- intros [= <-]. split; [reflexivity | left; reflexivity].
        -- intros [-> _]. reflexivity.
      * rewrite lookup_insert_ne by exact Hk. rewrite IH. split.
        -- intros [-> Ho]. split; [reflexivity |]. right. split; [discriminate | exact Ho].
        -- intros [-> [[= ->] | [_ Ho]]]; [contradiction |]. split; [reflexivity | exact Ho].
    + destruct (decide (k = s)) as [-> | Hk].
      * rewrite lookup_delete_eq. split; [discriminate |].
        intros [_ [H | [H _]]]; [discriminate | contradiction].
      * rewrite lookup_delete_ne by exact Hk. rewrite IH. split.
        -- intros [-> Ho]. split; [reflexivity |]. right. split; [| exact Ho].
           intros [= ->]. contradiction.
        -- intros [-> [H | [_ Ho]]]; [discriminate |]. split; [reflexivity | exact Ho].
Qed.

(** POST /messages of mcp-server.js hands a message to a transport exactly
    when the session named in the query is open: a transport of that name
    connected on GET /sse and none of that name has closed since.  A
    session id that was never opened, or was closed, gets 404; a missing or
    empty one gets 400, whatever sessions exist.  GET /health counts no
    active session exactly when none is open. *)
Theorem messages_reach_open_sessions (events : list Sessions.Event) :
  let r := Sessions.run events in
  (forall s, s <> "" ->
     (open_session events s ->
      Sessions.messages r (Some s) = Sessions.HandledBy {| sessionId := s |})
     /\ (~ open_session events s ->
         Sessions.messages r (Some s) = Sessions.SessionNotFound))
  /\ Sessions.messages r None = Sessions.MissingSessionId
  /\ Sessions.messages r (Some "") = Sessions.MissingSessionId
  /\ (Sessions.activeSessions r = 0%nat <-> forall s, ~ open_session events s).
Proof.
  intros r. split; [| split; [reflexivity | split; [reflexivity |]]].
  - intros s Hs. unfold Sessions.messages. cbn [truthy].
    rewrite bool_decide_eq_false_2 by exact Hs. cbn [negb].
    destruct (r !! s) as [t |] eqn:E.
    + apply registry_lookup in E as [-> Ho]. split; [reflexivity | contradiction].
    + split; [| reflexivity]. intros Ho.
      assert (r !! s = Some {| sessionId := s |}) as E'
        by (apply registry_lookup; split; [reflexivity | exact Ho]).
      congruence.
  - unfold Sessions.activeSessions. rewrite map_size_empty_iff. split.
    + intros Hr s Ho.
      assert (r !! s = Some {| sessionId := s |}) as E
        by (apply registry_lookup; split; [reflexivity | exact Ho]).
      rewrite Hr, lookup_empty in E. discriminate.
    + intros Hno. apply map_empty. intros s.
      destruct (r !! s) as [t |] eqn:E; [| reflexivity].
      apply registry_lookup in E as [_ Ho]. destruct (Hno s Ho).
Qed.

(** ** The client against the server *)





(** ** Examples for mcp-server.js *)


